(** * Policy Navigator Agent: the resilient call wrapper, the text chunker,
      the record normalizer and the response formatter

    A shallow embedding of [src/utils/helpers.py] ([safe_api_call],
    [chunk_text], [format_policy_response]) and of
    [src/data_ingestion/dataset_loader.py]
    ([DatasetLoader.prepare_policy_records]), with the properties the
    specification states about them; then [validate_env_vars] and the parts
    of [src/tools/court_listener.py], [src/tools/slack_integration.py] and
    [src/tools/federal_register.py]
    that run under the call wrapper, with properties read off the code. *)

From stdpp Require Import gmap strings list fin_maps pretty.
From Stdlib Require Import ZArith Lia Ascii.

Local Open Scope Z_scope.

(** ** Python values

    The dictionaries and data-frame cells of the program hold values of any
    type ([Dict[str, Any]]).  The embedding keeps the kinds of value the code
    under study can tell apart: strings, integers, booleans, [None] and the
    missing-value marker [float('nan')] that pandas puts in absent cells. *)

Inductive pyval : Type :=
  | VStr (s : string)
  | VInt (z : Z)
  | VBool (b : bool)
  | VNone
  | VNaN.

(** [str(v)], which is also what an f-string field [{v}] renders. *)
Definition str (v : pyval) : string :=
  match v with
  | VStr s => s
  | VInt z => pretty z
  | VBool true => "True"
  | VBool false => "False"
  | VNone => "None"
  | VNaN => "nan"
  end.

(** ** The resilient call wrapper: [safe_api_call] *)

Module Wrapper.

(** The exception classes the three [except] clauses tell apart.  Each
    constructor stands for the most specific of the four classes an exception
    belongs to: [requests.exceptions.Timeout] is a subclass of
    [requests.exceptions.RequestException], which is a subclass of
    [Exception], which is a subclass of [BaseException]. *)
Inductive exc_class : Type :=
  | Timeout
  | RequestException
  | Exception
  | BaseException.

(** [issubclass c d]. *)
Definition issubclass (c d : exc_class) : bool :=
  match d, c with
  | BaseException, _ => true
  | Exception, (Timeout | RequestException | Exception) => true
  | RequestException, (Timeout | RequestException) => true
  | Timeout, Timeout => true
  | _, _ => false
  end.

(** A raised exception: its class and [str(e)]. *)
Record exn : Type := Exn { exn_class : exc_class; exn_str : string }.

Definition isinstance (e : exn) (c : exc_class) : bool :=
  issubclass (exn_class e) c.
Arguments isinstance : simpl never.

(** What one invocation of the wrapped function does. *)
Inductive outcome (V : Type) : Type :=
  | Returns (v : V)
  | Raises (e : exn).
Arguments Returns {V} v.
Arguments Raises {V} e.

(** What the wrapper does: it hands back the function's own result, returns
    one of its error dictionaries, or lets an exception through. *)
Inductive wrapped (V : Type) : Type :=
  | WValue (v : V)
  | WDict (d : gmap string pyval)
  | WRaises (e : exn).
Arguments WValue {V} v.
Arguments WDict {V} d.
Arguments WRaises {V} e.

(** The observable steps of a run. *)
Inductive event : Type :=
  | Invoke
  | Sleep (seconds : Z)
  | LogInfo
  | LogWarning
  | LogError.

Definition is_invoke (ev : event) : bool :=
  match ev with Invoke => true | _ => false end.

Fixpoint invocations (tr : list event) : nat :=
  match tr with
  | [] => 0
  | ev :: tr' => (if is_invoke ev then 1 else 0) + invocations tr'
  end.

Definition sleeps (tr : list event) : list Z :=
  omap (fun ev => match ev with Sleep d => Some d | _ => None end) tr.

(** The three error dictionaries with a [details] entry, and the one
    without. *)
Definition error_dict (error details : string) : gmap string pyval :=
  <["error" := VStr error]> (<["details" := VStr details]> ∅).

Definition max_retries_exceeded : gmap string pyval :=
  <["error" := VStr "Max retries exceeded"]> ∅.

(** The [error] entry that goes with an exception the clauses catch: the
    first clause the exception is an instance of decides. *)
Definition error_of (e : exn) : string :=
  if isinstance e Timeout then "Timeout"
  else if isinstance e RequestException then "API unavailable"
  else "Internal error".

(** What the caller sees of a failure: a dictionary whose entries are
    exactly [error] and [details], with these two texts. *)
Definition fails_with {V : Type} (w : wrapped V) (error details : string)
    : Prop :=
  exists d : gmap string pyval,
    w = WDict d /\
    d !! "error" = Some (VStr error) /\
    d !! "details" = Some (VStr details) /\
    dom d = ({["error"; "details"]} : gset string).

(** [time.sleep(seconds)] for an integer length, as CPython has it.  The
    length is first converted to a count of nanoseconds in 64 bits, which
    raises an [OverflowError] beyond [sleep_limit] seconds either way; then a
    negative length is refused with a [ValueError]; then the system call
    suspends the caller.  What the system call does with a length is the
    platform's to decide: it returns after that long, or it fails (an
    [OSError] for a length the system rejects, an exception raised by a
    signal handler).  Both [OverflowError] and [ValueError] are instances of
    [Exception] and of none of the two request classes; the text of the
    [OverflowError] is the one CPython 3.11 gives. *)
Definition sleep_limit : Z := 9223372036.

Definition overflow_error : exn :=
  Exn Exception "timestamp too large to convert to C _PyTime_t".

Definition sleep_error : exn :=
  Exn Exception "sleep length must be non-negative".

(** The platform's system call: [None] when it suspends the caller for
    [seconds] and returns, the exception otherwise. *)
Class Platform : Type := { suspend : Z -> option exn }.

Definition time_sleep {platform : Platform} (seconds : Z) : option exn :=
  if (seconds <? - sleep_limit) || (sleep_limit <? seconds)
  then Some overflow_error
  else if seconds <? 0 then Some sleep_error
  else suspend seconds.

(** [time.sleep] returns from each of the sleeps that follow the first [k]
    timeouts: those of [retry_delay * 1], ..., [retry_delay * k] seconds. *)
Definition sleeps_return {platform : Platform} (retry_delay : Z) (k : nat)
    : Prop :=
  forall i, (i < k)%nat -> time_sleep (retry_delay * (Z.of_nat i + 1)) = None.

Definition default_max_retries : Z := 3.
Definition default_retry_delay : Z := 1.

Section safe_api_call.
Context {St V : Type} {platform : Platform}.

(** The wrapped function with its arguments applied: it runs against the
    state of the outside world and leaves a new one. *)
Variable api_function : St -> outcome V * St.

Record run : Type := Run {
  result : wrapped V;
  final : St;
  trace : list event
}.

Definition emit (evs : list event) (r : run) : run :=
  Run (result r) (final r) (evs ++ trace r).

(** The body of [for attempt in range(max_retries)], with [todo] the
    number of values of the range still to come, followed by the
    [return] after the loop.  An exception that [time.sleep] raises inside
    the handler is caught by none of the clauses and leaves the wrapper. *)
Fixpoint attempts (todo : nat) (attempt max_retries retry_delay : Z)
    (st : St) : run :=
  match todo with
  | O => Run (WDict max_retries_exceeded) st []
  | S todo' =>
    let '(o, st') := api_function st in
    emit [Invoke]
      match o with
      | Returns v => Run (WValue v) st' [LogInfo]
      | Raises e =>
        if isinstance e Timeout then
          emit [LogWarning]
            (if attempt <? max_retries - 1 then
               let seconds := retry_delay * (attempt + 1) in
               match time_sleep seconds with
               | Some e' => Run (WRaises e') st' []
               | None =>
                 emit [Sleep seconds]
                   (attempts todo' (attempt + 1) max_retries retry_delay st')
               end
             else Run (WDict (error_dict "Timeout" (exn_str e))) st' [])
        else if isinstance e RequestException then
          Run (WDict (error_dict "API unavailable" (exn_str e))) st' [LogError]
        else if isinstance e Exception then
          Run (WDict (error_dict "Internal error" (exn_str e))) st' [LogError]
        else Run (WRaises e) st' []
      end
  end.

(** The decorated function called with [max_retries] and [retry_delay]. *)
Definition wrapper (max_retries retry_delay : Z) (st : St) : run :=
  attempts (Z.to_nat max_retries) 0 max_retries retry_delay st.

(** What the [k]-th invocation (counted from 0) does when the function is
    called again and again from [st], and the state it starts from. *)
Fixpoint state_at (k : nat) (st : St) : St :=
  match k with
  | O => st
  | S k' => state_at k' (snd (api_function st))
  end.

Definition outcome_at (k : nat) (st : St) : outcome V :=
  fst (api_function (state_at k st)).

Definition times_out (o : outcome V) : Prop :=
  exists e, o = Raises e /\ isinstance e Timeout = true.

(** The first [k] invocations from [st] all raise a timeout. *)
Definition timeouts_before (k : nat) (st : St) : Prop :=
  forall i, (i < k)%nat -> times_out (outcome_at i st).

End safe_api_call.

End Wrapper.

(** ** The text chunker: [chunk_text] *)

Module Chunker.

(** A Python [str] as the list of its characters. *)
Definition text : Type := list ascii.

Definition lit (s : string) : text := String.list_ascii_of_string s.

Definition newline : ascii := ascii_of_nat 10.

(** [len(s)], an [int]. *)
Definition len (s : text) : Z := Z.of_nat (length s).

(** [c.isspace()] on the code points below 256: tab to carriage return, the
    four separators 28 to 31, the space, NEL and the no-break space. *)
Definition isspace (c : ascii) : bool :=
  let n := nat_of_ascii c in
  ((9 <=? n) && (n <=? 13) || (28 <=? n) && (n <=? 32)
   || (n =? 133) || (n =? 160))%nat.

Fixpoint lstrip (s : text) : text :=
  match s with
  | c :: s' => if isspace c then lstrip s' else s
  | [] => []
  end.

Definition rstrip (s : text) : text := rev (lstrip (rev s)).

(** [s.strip()]. *)
Definition strip (s : text) : text := rstrip (lstrip s).

(** How a slice bound is read against a sequence of length [n]: a negative
    bound counts from the end, and both are clipped to [0..n]. *)
Definition slice_bound (n i : Z) : Z :=
  if i <? 0 then Z.max (i + n) 0 else Z.min i n.

(** [s[start:stop]]. *)
Definition slice (s : text) (start stop : Z) : text :=
  let lo := slice_bound (len s) start in
  let hi := slice_bound (len s) stop in
  take (Z.to_nat (hi - lo)) (drop (Z.to_nat lo) s).

(** [s[p:].startswith(sub)] for [0 <= p]. *)
Fixpoint startswith (sub s : text) : bool :=
  match sub, s with
  | [], _ => true
  | a :: sub', b :: s' => Ascii.eqb a b && startswith sub' s'
  | _ :: _, [] => false
  end.

Definition occurs_at (s sub : text) (p : Z) : bool :=
  (0 <=? p) && startswith sub (drop (Z.to_nat p) s).

(** The candidates [lo + n - 1], ..., [lo], from the right. *)
Fixpoint rscan (s sub : text) (lo : Z) (n : nat) : Z :=
  match n with
  | O => -1
  | S n' =>
    let p := lo + Z.of_nat n' in
    if occurs_at s sub p then p else rscan s sub lo n'
  end.

(** How the find family reads its bounds against a string of length [n]
    (CPython's [ADJUST_INDICES]): a negative bound counts from the end and
    is clipped to 0, a [stop] beyond the end is clipped to [n], a [start]
    beyond the end is left as it is. *)
Definition find_start (n start : Z) : Z :=
  if start <? 0 then Z.max (start + n) 0 else start.

Definition find_stop (n stop : Z) : Z :=
  if n <? stop then n
  else if stop <? 0 then Z.max (stop + n) 0 else stop.

(** [s.rfind(sub, start, stop)]: the occurrence must lie inside the adjusted
    bounds whole. *)
Definition rfind (s sub : text) (start stop : Z) : Z :=
  let hi := find_stop (len s) stop in
  let lo := find_start (len s) start in
  rscan s sub lo (Z.to_nat (hi - lo - len sub + 1)).

(** The boundary markers in the order the code tries them. *)
Definition puncts : list text :=
  [lit ". "; lit "? "; lit "! "; [newline; newline]].

(** The [for punct in ...] loop: the first marker found decides, and
    [stop] is the window's end throughout the search. *)
Fixpoint break_at (s : text) (start stop : Z) (ps : list text) : Z :=
  match ps with
  | [] => stop
  | punct :: ps' =>
    let punct_pos := rfind s punct start stop in
    if punct_pos =? -1 then break_at s start stop ps'
    else punct_pos + len punct
  end.

(** The end of the window that starts at [start]. *)
Definition window_end (s : text) (chunk_size start : Z) : Z :=
  let stop := start + chunk_size in
  if stop <? len s then break_at s start stop puncts else stop.

(** [start = end - overlap if end < len(text) else end]. *)
Definition next_start (s : text) (overlap stop : Z) : Z :=
  if stop <? len s then stop - overlap else stop.

(** The [while start < len(text)] loop.  It need not end, so it runs on
    fuel: [None] says the fuel ran out before the loop did. *)
Fixpoint chunk_loop (fuel : nat) (s : text) (chunk_size overlap start : Z)
    (chunks : list text) : option (list text) :=
  match fuel with
  | O => None
  | S fuel' =>
    if start <? len s then
      let stop := window_end s chunk_size start in
      chunk_loop fuel' s chunk_size overlap (next_start s overlap stop)
        (chunks ++ [strip (slice s start stop)])
    else Some chunks
  end.

Definition chunk_text (fuel : nat) (s : text) (chunk_size overlap : Z)
    : option (list text) :=
  if len s <=? chunk_size then Some [s]
  else chunk_loop fuel s chunk_size overlap 0 [].

(** The same loop keeping the windows [(start, end)] instead of their text. *)
Fixpoint span_loop (fuel : nat) (s : text) (chunk_size overlap start : Z)
    (spans : list (Z * Z)) : option (list (Z * Z)) :=
  match fuel with
  | O => None
  | S fuel' =>
    if start <? len s then
      let stop := window_end s chunk_size start in
      span_loop fuel' s chunk_size overlap (next_start s overlap stop)
        (spans ++ [(start, stop)])
    else Some spans
  end.

Definition chunk_of_span (s : text) (span : Z * Z) : text :=
  strip (slice s (fst span) (snd span)).

(** [sub] occurs at [p] inside the window [start, stop) as [rfind] reads
    its bounds. *)
Definition occurs_in (s sub : text) (start stop p : Z) : Prop :=
  find_start (len s) start <= p /\
  p + len sub <= find_stop (len s) stop /\
  occurs_at s sub p = true.

(** The cut the specification describes: right after the marker, of any of
    the four kinds, that lies nearest to the window's end; the window's end
    itself when there is none. *)
Definition nearest_marker_cut (s : text) (start stop : Z) : Z :=
  let cuts :=
    omap (fun punct =>
            let pos := rfind s punct start stop in
            if pos =? -1 then None else Some (pos + len punct)) puncts in
  match cuts with
  | [] => stop
  | c :: cs => foldr Z.max c cs
  end.

End Chunker.

(** ** The record normalizer: [DatasetLoader.prepare_policy_records] *)

Module Normalizer.

(** A pandas [DataFrame] as the loop reads it: the column labels, and the
    rows that [iterrows] yields, each with its index label.  A row holds the
    cells that have a value; every other cell of the frame is the
    missing-value marker. *)
Record DataFrame : Type := {
  columns : list string;
  rows : list (pyval * gmap string pyval)
}.

(** [row[col]] for a column of the frame. *)
Definition cell (row : gmap string pyval) (col : string) : pyval :=
  default VNaN (row !! col).

(** [col in df.columns]. *)
Definition has_column (df : DataFrame) (col : string) : bool :=
  bool_decide (col ∈ columns df).

(** [pd.notna(v)] on a scalar. *)
Definition notna (v : pyval) : bool :=
  match v with
  | VNone | VNaN => false
  | _ => true
  end.

Record policy_record : Type := {
  id : string;
  text : string;
  attributes : gmap string string
}.

Definition default_metadata_columns : list string :=
  ["category"; "agency"; "date"; "type"].

(** The [for col in metadata_columns] loop. *)
Fixpoint extract_metadata (df : DataFrame) (row : gmap string pyval)
    (cols : list string) (attributes : gmap string string)
    : gmap string string :=
  match cols with
  | [] => attributes
  | col :: cols' =>
    extract_metadata df row cols'
      (if has_column df col && notna (cell row col)
       then <[col := str (cell row col)]> attributes
       else attributes)
  end.

(** The records built so far, and the index labels of the rows the loop
    skipped, one per warning it logged. *)
Record prepared : Type := {
  records : list policy_record;
  skipped : list pyval
}.

(** The [for idx, row in df.iterrows()] loop. *)
Fixpoint prepare_rows (df : DataFrame) (text_column id_column : string)
    (metadata_columns : list string)
    (todo : list (pyval * gmap string pyval)) (acc : prepared) : prepared :=
  match todo with
  | [] => acc
  | (idx, row) :: todo' =>
    let record_id :=
      if negb (has_column df id_column) then "doc_" +:+ str idx
      else str (cell row id_column) in
    prepare_rows df text_column id_column metadata_columns todo'
      (if negb (has_column df text_column)
       then {| records := records acc; skipped := skipped acc ++ [idx] |}
       else
         {| records := records acc ++
              [{| id := record_id;
                  text := str (cell row text_column);
                  attributes := extract_metadata df row metadata_columns ∅ |}];
            skipped := skipped acc |})
  end.

(** What one pass of the loop body appends for the row [(idx, row)] when the
    text column is there. *)
Definition record_of_row (df : DataFrame) (text_column id_column : string)
    (metadata_columns : list string) (r : pyval * gmap string pyval)
    : policy_record :=
  {| id := if has_column df id_column then str (cell (snd r) id_column)
           else "doc_" +:+ str (fst r);
     text := str (cell (snd r) text_column);
     attributes := extract_metadata df (snd r) metadata_columns ∅ |}.

Definition prepare_policy_records (df : DataFrame)
    (text_column id_column : string) (metadata_columns : option (list string))
    : prepared :=
  prepare_rows df text_column id_column
    (default default_metadata_columns metadata_columns)
    (rows df) {| records := []; skipped := [] |}.

(** [pd.DataFrame(records)] for a list of dictionaries whose values are all
    strings, each dictionary given by its items in order, with distinct
    keys: the columns are the keys in the order they first appear, the index
    is [0, 1, ...], and a key a dictionary lacks leaves a missing cell. *)
Fixpoint first_appearance (seen keys : list string) : list string :=
  match keys with
  | [] => []
  | key :: keys' =>
    if bool_decide (key ∈ seen) then first_appearance seen keys'
    else key :: first_appearance (key :: seen) keys'
  end.

Definition frame_columns (recs : list (list (string * string))) : list string :=
  first_appearance [] (concat (map (map fst) recs)).

Definition DataFrame_of_records (recs : list (list (string * string)))
    : DataFrame :=
  {| columns := frame_columns recs;
     rows := imap (fun i r =>
                     (VInt (Z.of_nat i),
                      VStr <$> (list_to_map r : gmap string string))) recs |}.

End Normalizer.

(** ** The response formatter: [format_policy_response] *)

Module Formatter.

Definition nl : string := String (ascii_of_nat 10) "".

(** [sep.join(parts)]. *)
Fixpoint join (sep : string) (parts : list string) : string :=
  match parts with
  | [] => ""
  | [p] => p
  | p :: parts' => p +:+ sep +:+ join sep parts'
  end.

(** [if key in data: formatted.append(render(data[key]))]. *)
Definition block (data : gmap string pyval) (key : string)
    (render : string -> string) : list string :=
  match data !! key with
  | Some v => [render (str v)]
  | None => []
  end.

Definition format_policy_response (data : gmap string pyval) : string :=
  match data !! "error" with
  | Some error =>
    "Error: " +:+ str error +:+ nl +:+
    "Details: " +:+ str (default (VStr "N/A") (data !! "details"))
  | None =>
    join nl
      (block data "title" (fun v => "**" +:+ v +:+ "**" +:+ nl)
       ++ block data "status" (fun v => "Status: " +:+ v)
       ++ block data "publication_date" (fun v => "Publication Date: " +:+ v)
       ++ block data "summary" (fun v => nl +:+ "Summary:" +:+ nl +:+ v)
       ++ block data "source" (fun v => nl +:+ "Source: " +:+ v)
       ++ block data "url" (fun v => "Link: " +:+ v))
  end.

(** The number of line breaks in a string. *)
Fixpoint newlines (s : string) : nat :=
  match s with
  | EmptyString => 0
  | String c s' => (if Ascii.eqb c (ascii_of_nat 10) then 1 else 0) + newlines s'
  end.

End Formatter.

(** ** The delays of the retry loop *)

Module Backoff.

(** The lengths [retry_delay * (attempt + 1)] of the sleeps that follow [k]
    timeouts in a row, the first of them at attempt number [attempt]. *)
Definition delays (retry_delay attempt : Z) (k : nat) : list Z :=
  map (fun i => retry_delay * (attempt + 1 + Z.of_nat i)) (seq 0 k).

End Backoff.

(** ** Environment check: [validate_env_vars] *)

Module Environment.

(** [os.getenv(var)]: the value, or [None]. *)
Definition getenv (environ : gmap string string) (var : string)
    : option string :=
  environ !! var.

(** The truth value of what [os.getenv] returns: [None] and the empty
    string are false. *)
Definition truthy (value : option string) : bool :=
  match value with
  | Some "" => false
  | Some _ => true
  | None => false
  end.

(** [validate_env_vars] applied to the names [required_vars]: the pair of [len(missing) == 0]
    and [missing]. *)
Definition validate_env_vars (environ : gmap string string)
    (required_vars : list string) : bool * list string :=
  let missing :=
    List.filter (fun var => negb (truthy (getenv environ var)))
      required_vars in
  ((length missing =? 0)%nat, missing).

End Environment.

(** ** Texts without boundary markers *)

Module Markers.
Import Chunker.

(** No boundary marker starts at any position of the text. *)
Definition marker_free (s : text) : bool :=
  forallb
    (fun punct =>
       forallb (fun p => negb (occurs_at s punct (Z.of_nat p)))
         (seq 0 (length s)))
    puncts.

(** No character at either end of the text is whitespace. *)
Definition trimmed (c : text) : Prop :=
  (forall a, head c = Some a -> isspace a = false) /\
  (forall a, last c = Some a -> isspace a = false).

End Markers.

(** ** The case-law tool: [CourtListenerTool] *)

Module CourtListener.
Import Wrapper.

(** The values of a JSON document. *)
#[local] Set Warnings "-register-all".
Inductive json : Type :=
  | JNull
  | JBool (b : bool)
  | JNum (z : Z)
  | JStr (s : string)
  | JList (items : list json)
  | JDict (entries : gmap string json).

(** A court case as the tool returns it: a dictionary with the keys
    [case_name], [court], [date_filed], [snippet], [url], [citation] and
    [status]. *)
Definition case : Type := gmap string json.

Definition make_case (case_name court date_filed snippet url : string)
    (citation : list string) (status : string) : case :=
  <["case_name" := JStr case_name]>
    (<["court" := JStr court]>
       (<["date_filed" := JStr date_filed]>
          (<["snippet" := JStr snippet]>
             (<["url" := JStr url]>
                (<["citation" := JList (JStr <$> citation)]>
                   (<["status" := JStr status]> ∅)))))).

(** [c.lower()] on the code points below 256: the letters A to Z and the
    capital letters of Latin-1 (192 to 222 but for the multiplication sign)
    move up by 32. *)
Definition lower_char (c : ascii) : ascii :=
  let n := nat_of_ascii c in
  if ((65 <=? n) && (n <=? 90)
      || (192 <=? n) && (n <=? 222) && negb (n =? 215))%nat
  then ascii_of_nat (n + 32) else c.

Fixpoint lower (s : string) : string :=
  match s with
  | EmptyString => EmptyString
  | String c s' => String (lower_char c) (lower s')
  end.

(** [sub in s] on strings. *)
Fixpoint contains (sub s : string) : bool :=
  String.prefix sub s ||
  match s with
  | EmptyString => false
  | String _ s' => contains sub s'
  end.

(** [cases[:limit]]. *)
Definition first_cases (limit : Z) (cases : list case) : list case :=
  take (Z.to_nat (Chunker.slice_bound (Z.of_nat (length cases)) limit)) cases.

Definition section_230_cases : list case :=
  [make_case "Fair Housing Council v. Roommates.com"
     "9th Circuit Court of Appeals" "2008-04-03"
     "This case clarified the limits of Section 230 immunity, holding that website design that contributes to allegedly unlawful content can remove immunity protection."
     "https://www.courtlistener.com/opinion/..." ["521 F.3d 1157"]
     "Precedential";
   make_case "Zeran v. America Online, Inc."
     "4th Circuit Court of Appeals" "1997-11-12"
     "Established broad immunity for ISPs under Section 230, holding that providers cannot be held liable for content posted by third parties."
     "https://www.courtlistener.com/opinion/..." ["129 F.3d 327"]
     "Precedential"].

Definition clean_air_act_cases : list case :=
  [make_case "Massachusetts v. EPA" "Supreme Court of the United States"
     "2007-04-02"
     "The Supreme Court held that the EPA has authority to regulate greenhouse gas emissions from new motor vehicles under the Clean Air Act."
     "https://www.courtlistener.com/opinion/..." ["549 U.S. 497"]
     "Precedential"].

Definition default_cases (regulation : string) : list case :=
  [make_case "Sample Case v. Example Defendant" "District Court" "2023-01-15"
     ("This case discusses " +:+ regulation +:+ " and its application.")
     "https://www.courtlistener.com/opinion/..." ["123 F. Supp. 3d 456"]
     "Published"].

(** The dictionary [mock_cases], in the order of its keys. *)
Definition mock_cases (regulation : string) : list (string * list case) :=
  [("Section 230", section_230_cases);
   ("Clean Air Act", clean_air_act_cases);
   ("default", default_cases regulation)].

(** The [for key in mock_cases] loop: the cases of the first key that the
    regulation mentions, whatever the capitals. *)
Fixpoint first_mention (regulation : string)
    (entries : list (string * list case)) : option (list case) :=
  match entries with
  | [] => None
  | (key, cases) :: entries' =>
    if contains (lower key) (lower regulation) then Some cases
    else first_mention regulation entries'
  end.

Definition _get_mock_case_law (regulation : string) (limit : Z)
    : list case :=
  match first_mention regulation (mock_cases regulation) with
  | Some cases => first_cases limit cases
  | None => first_cases limit (default_cases regulation)
  end.

(** [api_key or COURTLISTENER_API_KEY] in the constructor. *)
Definition init_api_key (api_key configured : option string)
    : option string :=
  if Environment.truthy api_key then api_key else configured.

Section search_case_law.
Context {St : Type}.

(** The body of the [try]: the GET with its parameters, the status check
    and the shaping of at most [limit] results into cases. *)
Variable request : string -> Z -> St -> outcome (list case) * St.

(** [CourtListenerTool.search_case_law] before it is decorated. *)
Definition search_case_law (api_key : option string)
    (regulation_reference : string) (limit : Z) (st : St)
    : outcome (list case) * St :=
  if negb (Environment.truthy api_key)
  then (Returns (_get_mock_case_law regulation_reference limit), st)
  else
    let '(o, st') := request regulation_reference limit st in
    match o with
    | Returns cases => (Returns cases, st')
    | Raises e =>
      if isinstance e Exception
      then (Returns (_get_mock_case_law regulation_reference limit), st')
      else (Raises e, st')
    end.

End search_case_law.

End CourtListener.

(** ** The notification tool: [SlackIntegration] *)

Module Slack.
Import Wrapper.

(** What [requests] tells about a response: the status code, and the reason
    and the address that go into the message of an [HTTPError]. *)
Record Response : Type := {
  status_code : Z;
  reason : string;
  response_url : string
}.

Definition is_client_error (r : Response) : bool :=
  (400 <=? status_code r) && (status_code r <? 500).

Definition is_server_error (r : Response) : bool :=
  (500 <=? status_code r) && (status_code r <? 600).

(** [response.raise_for_status()]: the [HTTPError], a [RequestException],
    that it raises for a status from 400 to 599. *)
Definition raise_for_status (r : Response) : option exn :=
  if is_client_error r then
    Some (Exn RequestException
            (pretty (status_code r) +:+ " Client Error: " +:+ reason r
             +:+ " for url: " +:+ response_url r))
  else if is_server_error r then
    Some (Exn RequestException
            (pretty (status_code r) +:+ " Server Error: " +:+ reason r
             +:+ " for url: " +:+ response_url r))
  else None.

(** [response.ok]: whether [raise_for_status] would pass. *)
Definition ok (r : Response) : bool :=
  match raise_for_status r with
  | Some _ => false
  | None => true
  end.

(** The blocks of a message. *)
Inductive block : Type :=
  | Header (plain_text : string)
  | SectionBlock (mrkdwn : string)
  | ContextBlock (mrkdwn : string).

(** The JSON body of a post: [text], and [blocks] when the message has
    them. *)
Record payload : Type := {
  text : string;
  blocks : option (list block)
}.

(** [webhook_url or SLACK_WEBHOOK_URL] in the constructor. *)
Definition init_webhook_url (webhook_url configured : option string)
    : option string :=
  if Environment.truthy webhook_url then webhook_url else configured.

Definition no_webhook : gmap string pyval :=
  <["error" := VStr "No Slack webhook URL configured"]> ∅.

Definition notification_payload (title content source : string)
    (url : option string) : payload :=
  {| text := title;
     blocks :=
       Some ([Header title; SectionBlock content;
              ContextBlock ("*Source:* " +:+ source)]
             ++ match url with
                | Some u =>
                  if Environment.truthy url
                  then [SectionBlock ("<" +:+ u +:+ "|View Details>")]
                  else []
                | None => []
                end) |}.

Section send.
Context {St : Type}.

(** [requests.post(webhook_url, json=payload, timeout=10)]. *)
Variable post : string -> payload -> St -> outcome Response * St.

(** [SlackIntegration.send_notification] before it is decorated. *)
Definition send_notification (webhook_url : option string)
    (title content source : string) (url : option string) (st : St)
    : outcome (gmap string pyval) * St :=
  match webhook_url with
  | Some webhook =>
    if negb (Environment.truthy webhook_url) then (Returns no_webhook, st)
    else
      let '(o, st') :=
        post webhook (notification_payload title content source url) st in
      match o with
      | Raises e => (Raises e, st')
      | Returns response =>
        match raise_for_status response with
        | Some e => (Raises e, st')
        | None =>
          (Returns
             (<["status" := VInt (status_code response)]>
                (<["sent" := VBool (ok response)]>
                   (<["message" := VStr "Notification sent successfully"]>
                      ∅))), st')
        end
      end
  | None => (Returns no_webhook, st)
  end.

(** [SlackIntegration.send_simple_message], which is not decorated and
    does not check the status. *)
Definition send_simple_message (webhook_url : option string)
    (message : string) (st : St) : outcome (gmap string pyval) * St :=
  match webhook_url with
  | Some webhook =>
    if negb (Environment.truthy webhook_url) then (Returns no_webhook, st)
    else
      let '(o, st') := post webhook {| text := message; blocks := None |} st in
      match o with
      | Raises e => (Raises e, st')
      | Returns response =>
        (Returns
           (<["status" := VInt (status_code response)]>
              (<["sent" := VBool (ok response)]> ∅)), st')
      end
  | None => (Returns no_webhook, st)
  end.

End send.

End Slack.

(** ** The registry tool: [FederalRegisterTool] *)

Module FederalRegister.
Import Wrapper CourtListener.

(** A document of the registry: a JSON object. *)
Definition document : Type := gmap string json.

(** The [results] entry of the registry's answer, a JSON object: there is
    none, it is [null], or it is an array of documents. *)
Inductive results_field : Type :=
  | Absent
  | Null
  | Items (items : list document).

(** [d.get(key)] and [d.get(key, default)]. *)
Definition dict_get (d : document) (key : string) : json :=
  default JNull (d !! key).

Definition dict_get_or (d : document) (key : string) (dflt : json) : json :=
  default dflt (d !! key).

Definition source : json := JStr "Federal Register API".

(** The parameters of the status query. *)
Definition status_params (order_number : string) : gmap string json :=
  <["conditions[term]" := JStr ("Executive Order " +:+ order_number)]>
    (<["fields[]" :=
         JList [JStr "title"; JStr "publication_date"; JStr "type";
                JStr "html_url"; JStr "executive_order_number";
                JStr "signing_date"]]>
       (<["per_page" := JNum 5]> ∅)).

(** The two dictionaries [check_executive_order_status] returns. *)
Definition active_status (order_number : string) (result : document)
    : gmap string json :=
  <["status" := JStr "active"]>
    (<["executive_order" := JStr order_number]>
       (<["title" := dict_get result "title"]>
          (<["publication_date" := dict_get result "publication_date"]>
             (<["signing_date" := dict_get result "signing_date"]>
                (<["url" := dict_get result "html_url"]>
                   (<["source" := source]>
                      (<["details" := JDict result]> ∅))))))).

Definition not_found_status (order_number : string) : gmap string json :=
  <["status" := JStr "not_found"]>
    (<["executive_order" := JStr order_number]>
       (<["message" :=
            JStr ("No records found for Executive Order " +:+ order_number)]>
          (<["source" := source]> ∅))).

(** The parameters of the search: the two filters are added when they are
    given and not empty. *)
Definition search_params (search_term : string)
    (agency document_type : option string) (max_results : Z)
    : gmap string json :=
  let params :=
    <["conditions[term]" := JStr search_term]>
      (<["per_page" := JNum (Z.min max_results 100)]>
         (<["fields[]" :=
              JList [JStr "title"; JStr "abstract"; JStr "publication_date";
                     JStr "type"; JStr "agencies"; JStr "html_url";
                     JStr "document_number"]]> ∅)) in
  let params :=
    match agency with
    | Some a =>
      if Environment.truthy agency
      then <["conditions[agencies][]" := JStr a]> params else params
    | None => params
    end in
  match document_type with
  | Some t =>
    if Environment.truthy document_type
    then <["conditions[type]" := JStr t]> params else params
  | None => params
  end.

(** The entry [search_regulations] makes of one document. *)
Definition regulation_of (item : document) : gmap string json :=
  <["document_number" := dict_get item "document_number"]>
    (<["title" := dict_get item "title"]>
       (<["abstract" := dict_get item "abstract"]>
          (<["publication_date" := dict_get item "publication_date"]>
             (<["type" := dict_get item "type"]>
                (<["agencies" := dict_get_or item "agencies" (JList [])]>
                   (<["url" := dict_get item "html_url"]> ∅)))))).

(** Iterating over [None] is a [TypeError]. *)
Definition not_iterable : exn :=
  Exn Exception "'NoneType' object is not iterable".

Section registry.
Context {St : Type}.

(** [self.session.get(url, params=params, timeout=30)] together with the
    [results] entry of the answer's JSON object. *)
Variable session_get :
  gmap string json -> St -> outcome (Slack.Response * results_field) * St.

(** [FederalRegisterTool.check_executive_order_status] before it is
    decorated. *)
Definition check_executive_order_status (order_number : string) (st : St)
    : outcome (gmap string json) * St :=
  let '(o, st') := session_get (status_params order_number) st in
  match o with
  | Raises e => (Raises e, st')
  | Returns (response, results) =>
    match Slack.raise_for_status response with
    | Some e => (Raises e, st')
    | None =>
      match results with
      | Items (result :: _) => (Returns (active_status order_number result), st')
      | _ => (Returns (not_found_status order_number), st')
      end
    end
  end.

(** [FederalRegisterTool.search_regulations] before it is decorated. *)
Definition search_regulations (search_term : string)
    (agency document_type : option string) (max_results : Z) (st : St)
    : outcome (list (gmap string json)) * St :=
  let '(o, st') :=
    session_get (search_params search_term agency document_type max_results)
      st in
  match o with
  | Raises e => (Raises e, st')
  | Returns (response, results) =>
    match Slack.raise_for_status response with
    | Some e => (Raises e, st')
    | None =>
      match results with
      | Absent => (Returns [], st')
      | Null => (Raises not_iterable, st')
      | Items items => (Returns (regulation_of <$> items), st')
      end
    end
  end.

End registry.

End FederalRegister.

(** ** More concrete inputs *)

Module MoreScenarios.
Import Wrapper CourtListener Slack.

(** A function that is interrupted from the keyboard. *)
Definition interrupted (st : unit) : outcome unit * unit :=
  (Raises (Exn BaseException ""), tt).

(** A function that times out once and is then interrupted from the
    keyboard; the state counts the calls. *)
Definition timeout_then_interrupted (calls : nat) : outcome unit * nat :=
  (match calls with
   | O => Raises (Exn Timeout "read timed out")
   | _ => Raises (Exn BaseException "")
   end, S calls).

(** An environment with one name set, one set to nothing and the others
    unset. *)
Definition sample_environ : gmap string string :=
  <["AIXPLAIN_API_KEY" := "secret"]> (<["SLACK_WEBHOOK_URL" := ""]> ∅).

(** A request that times out; the state counts the requests. *)
Definition request_times_out (regulation : string) (limit : Z) (sent : nat)
    : outcome (list case) * nat :=
  (Raises (Exn Timeout "read timed out"), S sent).

(** A webhook that answers every post with the given status; the state
    counts the posts. *)
Definition post_answers (status : Z) (webhook : string) (body : payload)
    (posts : nat) : outcome Response * nat :=
  (Returns {| status_code := status; reason := "Not Found";
              response_url := webhook |}, S posts).

(** Two documents of the registry. *)
Definition order_document : gmap string json :=
  <["title" := JStr "Ensuring Responsible Development of Digital Assets"]>
    (<["html_url" := JStr "https://www.federalregister.gov/d/2022-05471"]>
       (<["document_number" := JStr "2022-05471"]> ∅)).

Definition later_document : gmap string json :=
  <["title" := JStr "Digital Assets: Request for Comment"]>
    (<["document_number" := JStr "2022-15071"]> ∅).

(** A registry that answers every query with status 200 and the given
    [results] entry; the state counts the queries. *)
Definition registry_answers (results : FederalRegister.results_field)
    (params : gmap string json) (queries : nat)
    : outcome (Response * FederalRegister.results_field) * nat :=
  (Returns ({| status_code := 200; reason := "OK";
               response_url := "https://www.federalregister.gov/api/v1" |},
            results), S queries).

End MoreScenarios.

(** ** Concrete inputs used by the examples below *)

Module Scenarios.
Import Wrapper Chunker Normalizer.

(** A platform whose system call suspends for any length it is given. *)
#[export] Instance patient : Platform := {| suspend := fun _ => None |}.

(** A function that times out whenever it is called. *)
Definition always_timeout (st : unit) : outcome unit * unit :=
  (Raises (Exn Timeout "read timed out"), tt).

(** A function that times out once and then loses its connection; the state
    counts the calls. *)
Definition timeout_then_reset (calls : nat) : outcome unit * nat :=
  (match calls with
   | O => Raises (Exn Timeout "read timed out")
   | _ => Raises (Exn RequestException "connection reset")
   end, S calls).

(** A function that times out twice and then answers. *)
Definition third_time_lucky (calls : nat) : outcome string * nat :=
  (match calls with
   | O | 1%nat => Raises (Exn Timeout "read timed out")
   | _ => Returns "ok"
   end, S calls).

(** A text whose first window is cut so early that the cursor does not
    move. *)
Definition stuck_text : Chunker.text := lit "A. BCDEFGHIJ".

(** A text with a full stop early and a question mark late in its first
    window of eight characters. *)
Definition two_marker_text : Chunker.text := lit "A. B? CDEFGHIJ".

(** The two rows of the specification's scenario, as dictionaries. *)
Definition scenario_rows : list (list (string * string)) :=
  [[("id", "p1"); ("text", "hello"); ("category", "Env")];
   [("text", "world")]].

(** A frame with an [id] column whose only row has the empty string there,
    as [pd.DataFrame] builds it from the mapping of [id] to [['']] and of
    [text] to [['x']]. *)
Definition empty_id_frame : DataFrame :=
  {| columns := ["id"; "text"];
     rows := [(VInt 0, <["id" := VStr ""]> (<["text" := VStr "x"]> ∅))] |}.

(** A frame without [id] column. *)
Definition no_id_frame : DataFrame :=
  {| columns := ["text"];
     rows := [(VInt 0, <["text" := VStr "x"]> ∅);
              (VInt 1, <["text" := VStr "y"]> ∅)] |}.

End Scenarios.

(** * Properties *)

(** ** The resilient call wrapper *)

Section wrapper_properties.
Import Wrapper.
Context {St V : Type} {platform : Platform}.
Variable api_function : St -> outcome V * St.


Lemma invocations_app (tr1 tr2 : list event) :
  invocations (tr1 ++ tr2) = (invocations tr1 + invocations tr2)%nat.
Proof. induction tr1 as [|ev tr1 IH]; simpl; [done | rewrite IH; lia]. Qed.

Lemma result_emit (evs : list event) (r : run (St:=St) (V:=V)) :
  result (emit evs r) = result r.
Proof. reflexivity. Qed.

Lemma final_emit (evs : list event) (r : run (St:=St) (V:=V)) :
  final (emit evs r) = final r.
Proof. reflexivity. Qed.

Lemma trace_emit (evs : list event) (r : run (St:=St) (V:=V)) :
  trace (emit evs r) = evs ++ trace r.
Proof. reflexivity. Qed.

Lemma timeouts_before_S (k : nat) (st : St) :
  timeouts_before api_function (S k) st ->
  times_out (fst (api_function st)) /\
  timeouts_before api_function k (snd (api_function st)).
Proof.
  intros H; split.
  - apply (H 0%nat); lia.
  - intros i Hi. apply (H (S i)); lia.
Qed.

Lemma outcome_at_S (k : nat) (st : St) :
  outcome_at api_function (S k) st = outcome_at api_function k (snd (api_function st)).
Proof. reflexivity. Qed.

(** The wrapped function is never called more often than the range has
    values. *)
Lemma attempts_invocations_le (todo : nat) (attempt mr rd : Z) (st : St) :
  (invocations (trace (attempts api_function todo attempt mr rd st)) <= todo)%nat.
Proof.
  revert attempt st; induction todo as [|todo IH]; intros attempt st;
    simpl; [reflexivity|].
  destruct (api_function st) as [o st']; destruct o as [v|e];
    rewrite trace_emit, invocations_app; simpl; [lia|].
  repeat case_match; simpl;
    rewrite ?trace_emit, ?invocations_app; simpl; try lia.
  specialize (IH (attempt + 1) st'); lia.
Qed.

(** As long as the function times out, values of the range remain and
    [time.sleep] returns, the loop goes round again. *)
Lemma attempts_skip_timeouts (k todo : nat) (attempt mr rd : Z) (st : St) :
  (forall i, (i < k)%nat ->
     time_sleep (rd * (attempt + Z.of_nat i + 1)) = None) ->
  mr = attempt + Z.of_nat todo ->
  (k < todo)%nat -> timeouts_before api_function k st ->
  let r := attempts api_function todo attempt mr rd st in
  let r' := attempts api_function (todo - k) (attempt + Z.of_nat k) mr rd (state_at api_function k st) in
  result r = result r' /\ final r = final r' /\
  invocations (trace r) = (k + invocations (trace r'))%nat.
Proof.
  revert todo attempt st; induction k as [|k IH];
    intros todo attempt st Hsl Hmr Hk Hto; simpl.
  - rewrite Nat.sub_0_r, Z.add_0_r; auto.
  - destruct todo as [|todo]; [lia|].
    apply timeouts_before_S in Hto as [(e & He & Hcls) Hto].
    cbn [Wrapper.attempts Wrapper.result Wrapper.final Wrapper.trace].
    destruct (api_function st) as [o st'] eqn:Hcall; simpl in He, Hto |- *.
    subst o. rewrite Hcls.
    assert ((attempt <? mr - 1) = true) as -> by (apply Z.ltb_lt; lia).
    assert (time_sleep (rd * (attempt + 1)) = None) as ->.
    { rewrite <- (Hsl 0%nat) by lia. do 2 f_equal. lia. }
    rewrite !result_emit, !final_emit, !trace_emit, !invocations_app.
    destruct (IH todo (attempt + 1) st') as (Hr & Hf & Hi);
      [ | lia | lia | done |].
    { intros i Hi. rewrite <- (Hsl (S i)) by lia. do 2 f_equal. lia. }
    replace (attempt + Z.of_nat (S k)) with (attempt + 1 + Z.of_nat k) by lia.
    rewrite Hr, Hf, Hi. simpl. auto.
Qed.

(** The same for the whole run. *)
Lemma wrapper_skip_timeouts (k : nat) (mr rd : Z) (st : St) :
  sleeps_return rd k -> (k < Z.to_nat mr)%nat ->
  timeouts_before api_function k st ->
  let r := wrapper api_function mr rd st in
  let r' := attempts api_function (Z.to_nat mr - k) (Z.of_nat k) mr rd
              (state_at api_function k st) in
  result r = result r' /\ final r = final r' /\
  invocations (trace r) = (k + invocations (trace r'))%nat.
Proof.
  intros Hsl Hk Hto. unfold wrapper.
  apply (attempts_skip_timeouts k (Z.to_nat mr) 0 mr rd st);
    [exact Hsl | lia | done | done].
Qed.

(** What the attempt that follows [k] timeouts does when it raises
    something else than a timeout. *)
Lemma attempts_other_exception (todo : nat) (attempt mr rd : Z) (st : St)
    (e : exn) :
  fst (api_function st) = Raises e -> isinstance e Timeout = false ->
  let r := attempts api_function (S todo) attempt mr rd st in
  invocations (trace r) = 1%nat /\
  result r =
    if isinstance e RequestException
    then WDict (error_dict "API unavailable" (exn_str e))
    else if isinstance e Exception
         then WDict (error_dict "Internal error" (exn_str e))
         else WRaises e.
Proof.
  intros He Hcls; simpl.
  destruct (api_function st) as [o st']; simpl in He; subst o.
  rewrite Hcls. by repeat case_match.
Qed.

(** What the last attempt does when it times out. *)
Lemma attempts_last_timeout (attempt mr rd : Z) (st : St) (e : exn) :
  mr = attempt + 1 ->
  fst (api_function st) = Raises e -> isinstance e Timeout = true ->
  let r := attempts api_function 1 attempt mr rd st in
  invocations (trace r) = 1%nat /\
  result r = WDict (error_dict "Timeout" (exn_str e)).
Proof.
  intros Hmr He Hcls; simpl.
  destruct (api_function st) as [o st']; simpl in He; subst o.
  rewrite Hcls.
  assert ((attempt <? mr - 1) = false) as -> by (apply Z.ltb_ge; lia).
  done.
Qed.

Lemma wrapper_all_timeouts (mr rd : Z) (st : St) (e : exn) :
  1 <= mr -> sleeps_return rd (Z.to_nat mr - 1) ->
  timeouts_before api_function (Z.to_nat mr - 1) st ->
  outcome_at api_function (Z.to_nat mr - 1) st = Raises e ->
  isinstance e Timeout = true ->
  result (wrapper api_function mr rd st) = WDict (error_dict "Timeout" (exn_str e)) /\
  invocations (trace (wrapper api_function mr rd st)) = Z.to_nat mr.
Proof.
  intros Hmr Hsl Hto He Hcls.
  destruct (wrapper_skip_timeouts (Z.to_nat mr - 1) mr rd st)
    as (Hr & _ & Hi); [done | lia | done |].
  replace (Z.to_nat mr - (Z.to_nat mr - 1))%nat with 1%nat in Hr, Hi by lia.
  destruct (attempts_last_timeout (Z.of_nat (Z.to_nat mr - 1)) mr rd
              (state_at api_function (Z.to_nat mr - 1) st) e) as (Hi' & Hr');
    [lia | done | done |].
  rewrite Hr, Hi, Hi', Hr'. split; [done | lia].
Qed.

Lemma timeout_is_exception (e : exn) :
  isinstance e Timeout = true -> isinstance e Exception = true.
Proof. unfold isinstance. by destruct (exn_class e). Qed.

Lemma request_exception_is_exception (e : exn) :
  isinstance e RequestException = true -> isinstance e Exception = true.
Proof. unfold isinstance. by destruct (exn_class e). Qed.

(** Once the loop body runs, a dictionary the wrapper returns is made of an
    exception the function raised, which is an instance of [Exception]. *)
Lemma attempts_dict_origin (todo : nat) (attempt mr rd : Z) (st : St)
    (d : gmap string pyval) :
  mr = attempt + Z.of_nat todo -> (0 < todo)%nat ->
  result (attempts api_function todo attempt mr rd st) = WDict d ->
  exists (k : nat) (e : exn),
    (k < todo)%nat /\ outcome_at api_function k st = Raises e /\
    isinstance e Exception = true /\
    d = error_dict (error_of e) (exn_str e).
Proof.
  revert attempt st; induction todo as [|todo IH]; intros attempt st Hmr Hpos;
    [lia|].
  simpl. destruct (api_function st) as [o st'] eqn:Hcall; destruct o as [v|e];
    rewrite result_emit; [done|].
  assert (Hfirst : outcome_at api_function 0 st = Raises e)
    by (unfold outcome_at; simpl; by rewrite Hcall).
  destruct (isinstance e Timeout) eqn:Hto.
  - rewrite result_emit. destruct (attempt <? mr - 1) eqn:Hlt.
    + destruct (time_sleep (rd * (attempt + 1))); [done|].
      rewrite result_emit. apply Z.ltb_lt in Hlt. intros Hd.
      destruct (IH (attempt + 1) st') as (k & e' & Hk & He' & Hexc & ->);
        [lia | lia | done |].
      exists (S k), e'. split; [lia|]. split; [|done].
      by rewrite outcome_at_S, Hcall.
    + simpl. intros [= <-]. exists 0%nat, e. split; [lia|].
      split; [done|]. split; [by apply timeout_is_exception|].
      unfold error_of. by rewrite Hto.
  - destruct (isinstance e RequestException) eqn:Hreq.
    + simpl. intros [= <-]. exists 0%nat, e. split; [lia|].
      split; [done|]. split; [by apply request_exception_is_exception|].
      unfold error_of. by rewrite Hto, Hreq.
    + destruct (isinstance e Exception) eqn:Hexc; [|done].
      simpl. intros [= <-]. exists 0%nat, e. split; [lia|].
      split; [done|]. split; [done|].
      unfold error_of. by rewrite Hto, Hreq.
Qed.

Lemma error_of_cases (e : exn) :
  error_of e = "Timeout" \/ error_of e = "API unavailable" \/
  error_of e = "Internal error".
Proof. unfold error_of. repeat case_match; auto. Qed.

(** The dictionaries with details are failures as the caller sees them. *)
Lemma error_dict_fails (error details : string) :
  fails_with (V:=V) (WDict (error_dict error details)) error details.
Proof.
  exists (error_dict error details). unfold error_dict.
  split; [done|]. split; [by rewrite lookup_insert_eq|].
  split; [by rewrite lookup_insert_ne, lookup_insert_eq|].
  rewrite !dom_insert_L, dom_empty_L. set_solver.
Qed.

(** C1. Timeouts are retried until [max_retries] attempts have been made
    in all, provided [time.sleep] returns from the sleeps in between, and
    never more attempts are made than that; an attempt that raises a request
    error other than a timeout ends the run at once with the error
    "API unavailable", and one that raises any other exception ends it at
    once with "Internal error", in both cases with the text of the exception
    as details; a first attempt that raises something else than a timeout is
    the only invocation. *)
Theorem safe_api_call_retry_policy (max_retries retry_delay : Z) (st : St) :
  let r := wrapper api_function max_retries retry_delay st in
  (invocations (trace r) <= Z.to_nat max_retries)%nat /\
  (timeouts_before api_function (Z.to_nat max_retries) st ->
   sleeps_return retry_delay (Z.to_nat max_retries - 1) ->
   invocations (trace r) = Z.to_nat max_retries) /\
  (forall (k : nat) (e : exn),
     (k < Z.to_nat max_retries)%nat -> timeouts_before api_function k st ->
     sleeps_return retry_delay k ->
     outcome_at api_function k st = Raises e -> isinstance e Timeout = false ->
     invocations (trace r) = S k /\
     (isinstance e RequestException = true ->
      fails_with (result r) "API unavailable" (exn_str e)) /\
     (isinstance e RequestException = false ->
      isinstance e Exception = true ->
      fails_with (result r) "Internal error" (exn_str e))) /\
  (forall e : exn,
     0 < max_retries -> outcome_at api_function 0 st = Raises e ->
     isinstance e Timeout = false -> invocations (trace r) = 1%nat).
Proof.
  intros r.
  assert (Hother : forall (k : nat) (e : exn),
    (k < Z.to_nat max_retries)%nat -> timeouts_before api_function k st ->
    sleeps_return retry_delay k ->
    outcome_at api_function k st = Raises e -> isinstance e Timeout = false ->
    invocations (trace r) = S k /\
    result r =
      if isinstance e RequestException
      then WDict (error_dict "API unavailable" (exn_str e))
      else if isinstance e Exception
           then WDict (error_dict "Internal error" (exn_str e))
           else WRaises e).
  { intros k e Hk Hto Hsl He Hcls. subst r.
    destruct (wrapper_skip_timeouts k max_retries retry_delay st)
      as (Hr & _ & Hi); [done | done | done |].
    destruct (Z.to_nat max_retries - k)%nat as [|todo] eqn:Htodo; [lia|].
    destruct (attempts_other_exception todo (Z.of_nat k) max_retries
                retry_delay (state_at api_function k st) e He Hcls) as (Hi' & Hr').
    rewrite Hr, Hi, Hi', Hr'. split; [lia | done]. }
  split; [apply attempts_invocations_le|].
  split; [|split].
  - intros Hto Hsl.
    destruct (Z.to_nat max_retries) as [|n] eqn:Hn.
    + subst r; unfold Wrapper.wrapper; by rewrite Hn.
    + destruct (Hto n) as (e & He & Hcls); [lia|].
      destruct (wrapper_all_timeouts max_retries retry_delay st e)
        as (_ & Hi); [lia | by rewrite Hn | | | done | ].
      * intros i Hi; apply Hto; lia.
      * rewrite Hn; simpl; by rewrite Nat.sub_0_r.
      * subst r. by rewrite Hi, Hn.
  - intros k e Hk Hto Hsl He Hcls.
    destruct (Hother k e Hk Hto Hsl He Hcls) as (Hi & Hr).
    split; [done|]. split.
    + intros Hreq. rewrite Hr, Hreq. apply error_dict_fails.
    + intros Hreq Hexc. rewrite Hr, Hreq, Hexc. apply error_dict_fails.
  - intros e Hmr He Hcls.
    apply (Hother 0%nat e); [lia | intros i Hi; lia | intros i Hi; lia
                            | done | done].
Qed.

End wrapper_properties.

Section wrapper_examples.
Import Wrapper Scenarios.

Lemma timeout_then_reset_first :
  timeouts_before timeout_then_reset 1 0%nat.
Proof.
  intros i Hi. assert (i = 0%nat) as -> by lia.
  exists (Exn Timeout "read timed out"). by split.
Qed.

Lemma always_timeout_before (k : nat) : timeouts_before always_timeout k tt.
Proof.
  intros i _. exists (Exn Timeout "read timed out"). split; [|done].
  unfold outcome_at. by destruct (state_at always_timeout i tt).
Qed.

(** The retry policy at work: one timeout, then a connection reset, with
    three attempts allowed. *)
Lemma safe_api_call_retry_policy_witness :
  invocations (trace (wrapper timeout_then_reset 3 1 0%nat)) = 2%nat /\
  fails_with (result (wrapper timeout_then_reset 3 1 0%nat))
    "API unavailable" "connection reset".
Proof.
  destruct (safe_api_call_retry_policy timeout_then_reset 3 1 0%nat)
    as (_ & _ & H & _).
  destruct (H 1%nat (Exn RequestException "connection reset"))
    as (Hi & Hr & _);
    [simpl; lia | apply timeout_then_reset_first
    | intros i Hi; assert (i = 0%nat) as -> by lia; reflexivity
    | reflexivity | reflexivity |].
  split; [exact Hi | apply Hr; reflexivity].
Defined.

(** The scenario of the specification: two timeouts, then an answer, with
    three attempts allowed, gives the answer after three invocations and two
    sleeps. *)
Example third_time_lucky_run :
  wrapper third_time_lucky 3 1 0%nat =
    Run (WValue "ok") 3%nat
      [Invoke; LogWarning; Sleep 1; Invoke; LogWarning; Sleep 2;
       Invoke; LogInfo].
Proof. reflexivity. Qed.

End wrapper_examples.

Section wrapper_exhaustion.
Import Wrapper.
Context {St V : Type} {platform : Platform}.
Variable api_function : St -> outcome V * St.

(** C2, amended. When every one of the [max_retries >= 1] attempts times
    out and [time.sleep] returns from the sleeps in between, the wrapper
    returns the error "Timeout" whose details are the text of the timeout
    raised by the last attempt, after exactly [max_retries] invocations.
    The error "Max retries exceeded" is returned when [max_retries <= 0] and
    then only. *)
Theorem all_timeouts_return_last_timeout (max_retries retry_delay : Z)
    (st : St) :
  let r := wrapper api_function max_retries retry_delay st in
  (forall e : exn,
     1 <= max_retries ->
     timeouts_before api_function (Z.to_nat max_retries) st ->
     sleeps_return retry_delay (Z.to_nat max_retries - 1) ->
     outcome_at api_function (Z.to_nat max_retries - 1) st = Raises e ->
     fails_with (result r) "Timeout" (exn_str e) /\
     invocations (trace r) = Z.to_nat max_retries) /\
  ((exists d : gmap string pyval,
      result r = WDict d /\
      d !! "error" = Some (VStr "Max retries exceeded")) <->
   max_retries <= 0).
Proof.
  intros r. split.
  - intros e Hmr Hto Hsl He.
    destruct (Hto (Z.to_nat max_retries - 1)%nat) as (e' & He' & Hcls); [lia|].
    assert (e' = e) as -> by congruence.
    destruct (wrapper_all_timeouts api_function max_retries retry_delay st e)
      as (Hr & Hi); [done | done | | done | done |].
    { intros i Hi; apply Hto; lia. }
    subst r. rewrite Hr. split; [apply error_dict_fails | done].
  - subst r. unfold wrapper. split.
    + intros (d & Hd & Herr).
      destruct (Z_le_gt_dec max_retries 0) as [Hle|Hgt]; [done|].
      destruct (attempts_dict_origin api_function (Z.to_nat max_retries) 0
                  max_retries retry_delay st d)
        as (k & e & _ & _ & _ & ->); [lia | lia | done |].
      unfold error_dict in Herr. rewrite lookup_insert_eq in Herr.
      destruct (error_of_cases e) as [Heq|[Heq|Heq]];
        rewrite Heq in Herr; discriminate.
    + intros Hle. exists max_retries_exceeded.
      replace (Z.to_nat max_retries) with 0%nat by lia. by split.
Qed.

(** C10. With [max_retries <= 0] the wrapped function is never invoked, the
    outside world is left as it was, and the wrapper returns the dictionary
    whose only entry is the error "Max retries exceeded". *)
Theorem nonpositive_max_retries_never_invokes (max_retries retry_delay : Z)
    (st : St) :
  max_retries <= 0 ->
  let r := wrapper api_function max_retries retry_delay st in
  result r = WDict max_retries_exceeded /\
  invocations (trace r) = 0%nat /\ trace r = [] /\ final r = st /\
  max_retries_exceeded !! "error" = Some (VStr "Max retries exceeded") /\
  dom max_retries_exceeded = ({["error"]} : gset string).
Proof.
  intros Hmr r; subst r; unfold wrapper.
  replace (Z.to_nat max_retries) with 0%nat by lia; simpl.
  repeat split; done.
Qed.

End wrapper_exhaustion.

Section wrapper_exhaustion_examples.
Import Wrapper Scenarios.

Lemma all_timeouts_return_last_timeout_witness :
  fails_with (result (wrapper always_timeout 3 1 tt))
    "Timeout" "read timed out" /\
  invocations (trace (wrapper always_timeout 3 1 tt)) = 3%nat.
Proof.
  destruct (all_timeouts_return_last_timeout always_timeout 3 1 tt)
    as (H & _).
  apply (H (Exn Timeout "read timed out"));
    [lia | apply always_timeout_before
    | intros i Hi; destruct i as [|[|i]]; [reflexivity | reflexivity | simpl in Hi; lia]
    | reflexivity].
Defined.

(** C2 as stated fails: three timeouts out of three attempts give the
    details "read timed out", the text of the exception, and no entry of the
    returned dictionary holds the message "max retries exceeded", however it
    is capitalised. *)
Lemma timeout_message_counterexample :
  timeouts_before always_timeout 3 tt /\
  result (wrapper always_timeout 3 1 tt) =
    WDict (error_dict "Timeout" "read timed out") /\
  forall (d : gmap string pyval) (key : string),
    result (wrapper always_timeout 3 1 tt) = WDict d ->
    d !! key <> Some (VStr "max retries exceeded") /\
    d !! key <> Some (VStr "Max retries exceeded").
Proof.
  split; [apply always_timeout_before|].
  split; [reflexivity|].
  intros d key Hd. change (result (wrapper always_timeout 3 1 tt))
    with (@WDict unit (error_dict "Timeout" "read timed out")) in Hd.
  injection Hd as <-. unfold error_dict.
  destruct (decide (key = "error")) as [->|Herr].
  - rewrite lookup_insert_eq. split; discriminate.
  - rewrite lookup_insert_ne by done.
    destruct (decide (key = "details")) as [->|Hdet].
    + rewrite lookup_insert_eq. split; discriminate.
    + rewrite lookup_insert_ne by done. rewrite lookup_empty.
      split; discriminate.
Qed.

Lemma nonpositive_max_retries_never_invokes_witness :
  result (wrapper always_timeout 0 1 tt) = WDict max_retries_exceeded /\
  invocations (trace (wrapper always_timeout (-2) 1 tt)) = 0%nat.
Proof.
  split.
  - apply (nonpositive_max_retries_never_invokes always_timeout 0 1 tt); lia.
  - apply (nonpositive_max_retries_never_invokes always_timeout (-2) 1 tt);
      lia.
Defined.

End wrapper_exhaustion_examples.

(** ** The response formatter *)

Section formatter_properties.
Import Formatter.

Lemma newlines_app (s t : string) :
  newlines (s +:+ t) = (newlines s + newlines t)%nat.
Proof. induction s as [|c s IH]; simpl; [done | rewrite IH; lia]. Qed.

(** C9. A mapping with the key [error] is rendered as "Error: <error>", a
    line break, and "Details: <details>", where <details> is the value at
    [details] or "N/A" when that key is absent; these are two lines when the
    two values hold no line break; and a mapping that agrees with it on
    [error] and [details] is rendered the same, whatever its other keys. *)
Theorem format_error_two_lines (data : gmap string pyval) (error : pyval) :
  data !! "error" = Some error ->
  let details := default (VStr "N/A") (data !! "details") in
  format_policy_response data =
    "Error: " +:+ str error +:+ nl +:+ "Details: " +:+ str details /\
  (newlines (str error) = 0%nat -> newlines (str details) = 0%nat ->
   newlines (format_policy_response data) = 1%nat) /\
  (forall data' : gmap string pyval,
     data' !! "error" = data !! "error" ->
     data' !! "details" = data !! "details" ->
     format_policy_response data' = format_policy_response data).
Proof.
  intros Herr details. unfold format_policy_response.
  rewrite Herr. split; [done|]. split.
  - intros He Hd. rewrite !newlines_app, He. fold details. rewrite Hd.
    reflexivity.
  - intros data' Herr' Hdet'. by rewrite Herr', Hdet'.
Qed.

(** The scenario of the specification. *)
Lemma format_error_two_lines_witness :
  format_policy_response
    (<["error" := VStr "Timeout"]>
       (<["details" := VStr "took too long"]> ∅)) =
  "Error: Timeout" +:+ nl +:+ "Details: took too long".
Proof.
  destruct (format_error_two_lines
              (<["error" := VStr "Timeout"]>
                 (<["details" := VStr "took too long"]> ∅))
              (VStr "Timeout")) as (H & _); [reflexivity|].
  exact H.
Defined.

(** Without [details] the second line reads "Details: N/A", and keys such as
    [title] leave no mark. *)
Example format_error_without_details :
  format_policy_response
    (<["error" := VStr "Timeout"]> (<["title" := VStr "Clean Air Act"]> ∅)) =
  "Error: Timeout" +:+ nl +:+ "Details: N/A".
Proof. reflexivity. Qed.

(** Without [error] the present fields come out in the fixed order. *)
Example format_policy_fields :
  format_policy_response
    (<["url" := VStr "https://example.org"]>
       (<["title" := VStr "Clean Air Act"]>
          (<["status" := VStr "Active"]> ∅))) =
  "**Clean Air Act**" +:+ nl +:+ nl +:+ "Status: Active" +:+ nl +:+
  "Link: https://example.org".
Proof. reflexivity. Qed.

End formatter_properties.

(** ** The record normalizer *)

Section normalizer_properties.
Import Normalizer Scenarios.

Lemma prepare_rows_by_row (df : DataFrame) (tc ic : string)
    (mc : list string) (todo : list (pyval * gmap string pyval))
    (acc : prepared) :
  prepare_rows df tc ic mc todo acc =
    if has_column df tc
    then {| records := records acc ++ map (record_of_row df tc ic mc) todo;
            skipped := skipped acc |}
    else {| records := records acc;
            skipped := skipped acc ++ map fst todo |}.
Proof.
  revert acc; induction todo as [|[idx row] todo IH]; intros acc; simpl.
  - destruct (has_column df tc); rewrite app_nil_r; by destruct acc.
  - rewrite IH. destruct (has_column df tc); simpl.
    + rewrite <- app_assoc. unfold record_of_row; simpl.
      by destruct (has_column df ic).
    + by rewrite <- app_assoc.
Qed.

Lemma synthesized_id_nonempty (idx : pyval) : "doc_" +:+ str idx <> "".
Proof. discriminate. Qed.

(** C7, amended. The records and the skipped rows together are as many as
    the rows of the frame; and every record's id is non-empty when the frame
    has no id column (the id is then synthesized) or no row's id cell
    renders as the empty string. *)
Theorem prepared_counts_and_ids (df : DataFrame) (text_column id_column : string)
    (metadata_columns : option (list string)) :
  let p := prepare_policy_records df text_column id_column metadata_columns in
  (length (records p) + length (skipped p) = length (rows df))%nat /\
  (has_column df id_column = false \/
   Forall (fun r => str (cell (snd r) id_column) <> "") (rows df) ->
   Forall (fun r => id r <> "") (records p)).
Proof.
  intros p; subst p; unfold prepare_policy_records.
  rewrite prepare_rows_by_row; simpl.
  destruct (has_column df text_column); simpl.
  - split; [rewrite length_map; lia|].
    intros H. apply Forall_map, Forall_forall. intros [idx row] Hin; simpl.
    destruct (has_column df id_column) eqn:Hid.
    + destruct H as [H|H]; [done|].
      by apply (proj1 (Forall_forall _ _) H (idx, row)).
    + apply synthesized_id_nonempty.
  - split; [by rewrite length_map | constructor].
Qed.

Lemma prepared_counts_and_ids_witness :
  (length (records (prepare_policy_records no_id_frame "text" "id" None)) +
   length (skipped (prepare_policy_records no_id_frame "text" "id" None)) =
   2)%nat /\
  Forall (fun r => id r <> "")
    (records (prepare_policy_records no_id_frame "text" "id" None)).
Proof.
  destruct (prepared_counts_and_ids no_id_frame "text" "id" None)
    as (Hc & Hid).
  split; [exact Hc | apply Hid; left; reflexivity].
Defined.

(** C7 as stated fails: a row whose id cell is the empty string becomes a
    record whose id is empty. *)
Lemma empty_id_counterexample :
  records (prepare_policy_records empty_id_frame "text" "id" None) =
    [{| id := ""; text := "x"; attributes := ∅ |}] /\
  ~ Forall (fun r => id r <> "")
      (records (prepare_policy_records empty_id_frame "text" "id" None)).
Proof.
  assert (H : records (prepare_policy_records empty_id_frame "text" "id" None)
              = [{| id := ""; text := "x"; attributes := ∅ |}])
    by reflexivity.
  split; [exact H|]. rewrite H. intros Hall.
  by apply Forall_cons in Hall as [Hne _].
Qed.

(** C8, amended. The frame has one set of columns for all its rows.  When
    the id column is not among them, every record's id is "doc_" followed by
    the row's index label; when it is, the id is the row's cell rendered as
    a string, which is "nan" for a row without a value there.  Rows are
    skipped all together, when the text column is not among the columns of
    the frame.  So the scenario's second row gets the id "nan". *)
Theorem record_ids_follow_frame_columns (df : DataFrame)
    (text_column id_column : string) (metadata_columns : list string) :
  prepare_policy_records df text_column id_column (Some metadata_columns) =
    (if has_column df text_column
     then {| records :=
               map (record_of_row df text_column id_column metadata_columns)
                 (rows df);
             skipped := [] |}
     else {| records := []; skipped := map fst (rows df) |}) /\
  (forall (idx : pyval) (row : gmap string pyval),
     id (record_of_row df text_column id_column metadata_columns (idx, row)) =
       match has_column df id_column, row !! id_column with
       | false, _ => "doc_" +:+ str idx
       | true, Some v => str v
       | true, None => "nan"
       end) /\
  prepare_policy_records (DataFrame_of_records scenario_rows)
      "text" "id" (Some ["category"]) =
    {| records :=
         [{| id := "p1"; text := "hello";
             attributes := <["category" := "Env"]> ∅ |};
          {| id := "nan"; text := "world"; attributes := ∅ |}];
       skipped := [] |}.
Proof.
  split; [|split].
  - unfold prepare_policy_records. by rewrite prepare_rows_by_row.
  - intros idx row. unfold record_of_row, cell; simpl.
    destruct (has_column df id_column); [|done].
    by destruct (row !! id_column).
  - reflexivity.
Qed.

(** C8 as stated fails: the scenario's second record has the id "nan", not
    "doc_1", because the frame built from the two rows does have an [id]
    column. *)
Lemma scenario_second_id_counterexample :
  has_column (DataFrame_of_records scenario_rows) "id" = true /\
  id <$> records (prepare_policy_records (DataFrame_of_records scenario_rows)
                    "text" "id" (Some ["category"])) = ["p1"; "nan"] /\
  id <$> records (prepare_policy_records (DataFrame_of_records scenario_rows)
                    "text" "id" (Some ["category"])) <> ["p1"; "doc_1"].
Proof.
  split; [reflexivity|].
  assert (H : id <$> records (prepare_policy_records
                (DataFrame_of_records scenario_rows) "text" "id"
                (Some ["category"])) = ["p1"; "nan"]) by reflexivity.
  split; [exact H | rewrite H; discriminate].
Qed.

End normalizer_properties.

(** ** The text chunker *)

Section chunker_properties.
Import Chunker Scenarios.

Lemma occurs_at_nonneg (s sub : text) (p : Z) :
  occurs_at s sub p = true -> 0 <= p.
Proof.
  unfold occurs_at. intros H. apply andb_true_iff in H as [H _]. lia.
Qed.

(** A scan that finds something finds the rightmost candidate. *)
Lemma rscan_found (s sub : text) (lo : Z) (n : nat) :
  rscan s sub lo n <> -1 ->
  lo <= rscan s sub lo n < lo + Z.of_nat n /\
  occurs_at s sub (rscan s sub lo n) = true /\
  forall q, rscan s sub lo n < q < lo + Z.of_nat n ->
            occurs_at s sub q = false.
Proof.
  induction n as [|n IH]; simpl; [done|].
  destruct (occurs_at s sub (lo + Z.of_nat n)) eqn:Hocc.
  - intros _. split; [lia|]. split; [done|]. intros q Hq; lia.
  - intros Hne. destruct (IH Hne) as (Hb & Ho & Hmax).
    split; [lia|]. split; [done|]. intros q Hq.
    destruct (decide (q = lo + Z.of_nat n)) as [->|]; [done|].
    apply Hmax; lia.
Qed.

(** A scan that finds nothing has tried every candidate. *)
Lemma rscan_none (s sub : text) (lo : Z) (n : nat) :
  rscan s sub lo n = -1 ->
  forall q, lo <= q < lo + Z.of_nat n -> occurs_at s sub q = false.
Proof.
  induction n as [|n IH]; simpl; [intros _ q Hq; lia|].
  destruct (occurs_at s sub (lo + Z.of_nat n)) eqn:Hocc.
  - intros Hp. apply occurs_at_nonneg in Hocc. lia.
  - intros Hp q Hq.
    destruct (decide (q = lo + Z.of_nat n)) as [->|]; [done|].
    apply IH; [done | lia].
Qed.

(** [rfind] returns the last position at which [sub] lies inside the
    window. *)
Lemma rfind_found (s sub : text) (start stop : Z) :
  rfind s sub start stop <> -1 ->
  occurs_in s sub start stop (rfind s sub start stop) /\
  forall q, occurs_in s sub start stop q -> q <= rfind s sub start stop.
Proof.
  unfold rfind, occurs_in. intros Hne.
  destruct (rscan_found _ _ _ _ Hne) as (Hb & Ho & Hmax).
  split; [split; [lia | split; [lia | done]]|].
  intros q (Hlo & Hhi & Hq).
  destruct (Z_le_gt_dec q
    (rscan s sub (find_start (len s) start)
       (Z.to_nat (find_stop (len s) stop - find_start (len s) start
                  - len sub + 1)))) as [|Hgt]; [done|].
  rewrite Hmax in Hq; [done | lia].
Qed.

(** [rfind] returns -1 exactly when [sub] lies nowhere inside the window. *)
Lemma rfind_none (s sub : text) (start stop : Z) :
  rfind s sub start stop = -1 ->
  forall q, ~ occurs_in s sub start stop q.
Proof.
  unfold rfind, occurs_in. intros Hnone q (Hlo & Hhi & Hq).
  rewrite (rscan_none _ _ _ _ Hnone) in Hq; [done | lia].
Qed.

(** The first marker of the list that occurs in the window decides the cut,
    at its last occurrence there. *)
Lemma break_at_first_marker (s : text) (start stop : Z) (ps : list text) :
  (exists (earlier later : list text) (punct : text) (pos : Z),
     ps = earlier ++ punct :: later /\
     (forall m q, m ∈ earlier -> ~ occurs_in s m start stop q) /\
     occurs_in s punct start stop pos /\
     (forall q, occurs_in s punct start stop q -> q <= pos) /\
     break_at s start stop ps = pos + len punct) \/
  ((forall m q, m ∈ ps -> ~ occurs_in s m start stop q) /\
   break_at s start stop ps = stop).
Proof.
  induction ps as [|punct ps IH]; simpl.
  - right. split; [|done]. intros m q Hm. by apply elem_of_nil in Hm.
  - destruct (rfind s punct start stop =? -1) eqn:Hpos.
    + apply Z.eqb_eq in Hpos.
      destruct IH as [(earlier & later & m & pos & -> & Hno & Hocc & Hmax & Hcut)
                     |(Hno & Hcut)].
      * left. exists (punct :: earlier), later, m, pos.
        split; [done|]. split; [|done].
        intros m' q Hm'. apply elem_of_cons in Hm' as [->|Hm'].
        -- by apply rfind_none.
        -- by apply Hno.
      * right. split; [|done].
        intros m' q Hm'. apply elem_of_cons in Hm' as [->|Hm'].
        -- by apply rfind_none.
        -- by apply Hno.
    + apply Z.eqb_neq in Hpos.
      destruct (rfind_found _ _ _ _ Hpos) as (Hocc & Hmax).
      left. exists [], ps, punct, (rfind s punct start stop).
      split; [done|]. split; [|done].
      intros m q Hm. by apply elem_of_nil in Hm.
Qed.

(** C6, amended. For a window whose end falls strictly before the end of
    the text, the markers are tried in the order '. ', '? ', '! ', blank
    line: the first kind that occurs in the window decides, and the window
    is cut right after the last occurrence of that kind, wherever the other
    kinds occur; a window without any marker keeps its end. *)
Theorem window_end_first_marker (s : text) (chunk_size start : Z) :
  start + chunk_size < len s ->
  let stop := start + chunk_size in
  (exists (earlier later : list text) (punct : text) (pos : Z),
     puncts = earlier ++ punct :: later /\
     (forall m q, m ∈ earlier -> ~ occurs_in s m start stop q) /\
     occurs_in s punct start stop pos /\
     (forall q, occurs_in s punct start stop q -> q <= pos) /\
     window_end s chunk_size start = pos + len punct) \/
  ((forall m q, m ∈ puncts -> ~ occurs_in s m start stop q) /\
   window_end s chunk_size start = stop).
Proof.
  intros Hlt stop. unfold window_end. fold stop.
  assert ((stop <? len s) = true) as -> by (apply Z.ltb_lt; lia).
  apply break_at_first_marker.
Qed.

Lemma window_end_first_marker_witness :
  window_end two_marker_text 8 0 = 3 \/ window_end two_marker_text 8 0 = 8.
Proof.
  destruct (window_end_first_marker two_marker_text 8 0) as
    [(earlier & later & punct & pos & _ & _ & _ & _ & H)|(_ & H)];
    [reflexivity | left; reflexivity | right; exact H].
Defined.

(** C6 as stated fails: in the window of eight characters from 0 the full
    stop lies at 1 and the question mark at 4, nearer to the window's end;
    the code cuts at 3, after the full stop, and not at 6. *)
Lemma nearest_marker_counterexample :
  8 < len two_marker_text /\
  occurs_in two_marker_text (lit ". ") 0 8 1 /\
  occurs_in two_marker_text (lit "? ") 0 8 4 /\
  nearest_marker_cut two_marker_text 0 8 = 6 /\
  window_end two_marker_text 8 0 = 3.
Proof. repeat split; vm_compute; congruence. Qed.

(** C4, amended. A text no longer than [chunk_size] comes back as the only
    chunk, unchanged; it is the trimmed text only when the text has no
    whitespace at either end. *)
Theorem short_text_single_chunk (fuel : nat) (s : text)
    (chunk_size overlap : Z) :
  len s <= chunk_size ->
  chunk_text fuel s chunk_size overlap = Some [s] /\
  (chunk_text fuel s chunk_size overlap = Some [strip s] <-> strip s = s).
Proof.
  intros Hle. unfold chunk_text.
  assert ((len s <=? chunk_size) = true) as -> by (apply Z.leb_le; lia).
  split; [done|]. split; [intros H; congruence | intros ->; done].
Qed.

Lemma short_text_single_chunk_witness :
  chunk_text 0 (lit "hello") 1000 100 = Some [lit "hello"].
Proof.
  destruct (short_text_single_chunk 0 (lit "hello") 1000 100) as (H & _);
    [vm_compute; discriminate | exact H].
Defined.

(** C4 as stated fails: a short text with blanks around it comes back with
    its blanks. *)
Lemma untrimmed_chunk_counterexample :
  len (lit " hi ") <= 5 /\
  chunk_text 10 (lit " hi ") 5 1 = Some [lit " hi "] /\
  chunk_text 10 (lit " hi ") 5 1 <> Some [strip (lit " hi ")].
Proof. repeat split; vm_compute; congruence. Qed.

End chunker_properties.

Section chunker_termination.
Import Chunker Scenarios.

Lemma chunk_loop_step (fuel : nat) (s : text) (chunk_size overlap start : Z)
    (chunks : list text) :
  chunk_loop (S fuel) s chunk_size overlap start chunks =
    if start <? len s then
      chunk_loop fuel s chunk_size overlap
        (next_start s overlap (window_end s chunk_size start))
        (chunks ++ [strip (slice s start (window_end s chunk_size start))])
    else Some chunks.
Proof. reflexivity. Qed.

Lemma find_stop_lt (n stop : Z) : 0 < n -> stop < n -> find_stop n stop < n.
Proof. intros Hn Hs. unfold find_stop. repeat case_match; lia. Qed.

(** Cutting a window that ends before the end of the text leaves it ending
    before the end of the text. *)
Lemma break_at_lt (s : text) (start stop : Z) (ps : list text) :
  0 < len s -> stop < len s -> break_at s start stop ps < len s.
Proof.
  intros Hn Hs.
  destruct (break_at_first_marker s start stop ps)
    as [(earlier & later & punct & pos & _ & _ & (_ & Hhi & _) & _ & ->)
       |(_ & ->)]; [|done].
  pose proof (find_stop_lt (len s) stop Hn Hs). lia.
Qed.

(** With an overlap that is no smaller than the chunk size the cursor never
    gets past the point from which a whole window fits, so the loop goes on
    for ever. *)
Lemma chunk_loop_no_progress (fuel : nat) (s : text)
    (chunk_size overlap start : Z) (chunks : list text) :
  0 < chunk_size -> chunk_size <= overlap -> chunk_size < len s ->
  start + chunk_size < len s ->
  chunk_loop fuel s chunk_size overlap start chunks = None.
Proof.
  intros Hcs Hov Hlen. revert start chunks.
  induction fuel as [|fuel IH]; intros start chunks Hstart; [done|].
  rewrite chunk_loop_step.
  assert ((start <? len s) = true) as -> by (apply Z.ltb_lt; lia).
  assert (Hend : window_end s chunk_size start < len s).
  { unfold window_end.
    assert ((start + chunk_size <? len s) = true) as ->
      by (apply Z.ltb_lt; lia).
    apply break_at_lt; lia. }
  apply IH. unfold next_start.
  assert ((window_end s chunk_size start <? len s) = true) as ->
    by (apply Z.ltb_lt; lia).
  lia.
Qed.

Lemma chunk_loop_stuck (fuel : nat) (chunks : list text) :
  chunk_loop fuel stuck_text 5 3 0 chunks = None.
Proof.
  revert chunks; induction fuel as [|fuel IH]; intros chunks; [done|].
  rewrite chunk_loop_step.
  change (0 <? len stuck_text) with true.
  change (window_end stuck_text 5 0) with 3.
  change (next_start stuck_text 3 3) with 0.
  cbn iota. apply IH.
Qed.

(** C3 fails on the code.  With [chunk_size = 5] and [overlap = 3], valid
    parameters, the first window of a text of twelve characters is cut at 3,
    right after "A. "; the cursor goes back to [3 - 3 = 0], the same window
    comes again, and the loop never ends: no amount of fuel yields a list of
    chunks. *)
Theorem chunk_text_stuck (fuel : nat) :
  len stuck_text = 12 /\
  window_end stuck_text 5 0 = 3 /\
  next_start stuck_text 3 (window_end stuck_text 5 0) = 0 /\
  chunk_text fuel stuck_text 5 3 = None.
Proof.
  split; [reflexivity|]. split; [reflexivity|]. split; [reflexivity|].
  unfold chunk_text. change (len stuck_text <=? 5) with false. cbn iota.
  apply chunk_loop_stuck.
Qed.

(** C5, amended. The chunker does not check its parameters: it has no
    error to signal.  With [chunk_size <= 0] or [overlap >= chunk_size], a
    text no longer than [chunk_size] comes back as the only chunk, and a
    text longer than a positive [chunk_size] makes the loop run for ever. *)
Theorem chunk_text_unvalidated (fuel : nat) (s : text)
    (chunk_size overlap : Z) :
  chunk_size <= 0 \/ chunk_size <= overlap ->
  (len s <= chunk_size -> chunk_text fuel s chunk_size overlap = Some [s]) /\
  (0 < chunk_size -> chunk_size < len s ->
   chunk_text fuel s chunk_size overlap = None).
Proof.
  intros Hbad. unfold chunk_text. split.
  - intros Hle.
    by assert ((len s <=? chunk_size) = true) as -> by (apply Z.leb_le; lia).
  - intros Hcs Hlt.
    assert ((len s <=? chunk_size) = false) as -> by (apply Z.leb_gt; lia).
    apply chunk_loop_no_progress; lia.
Qed.

Lemma chunk_text_unvalidated_witness :
  chunk_text 7 (lit "hi") 5 7 = Some [lit "hi"] /\
  chunk_text 7 (lit "abcdefghij") 5 5 = None.
Proof.
  split.
  - apply (chunk_text_unvalidated 7 (lit "hi") 5 7); [right; lia|].
    vm_compute; discriminate.
  - apply (chunk_text_unvalidated 7 (lit "abcdefghij") 5 5);
      [right; lia | lia | reflexivity].
Defined.

(** C5 as stated fails: with [overlap >= chunk_size] a short text is
    returned as a chunk, which is no error, and a long one is chunked for
    ever, which is no fast failure. *)
Lemma unvalidated_parameters_counterexample :
  (forall fuel, chunk_text fuel (lit "hi") 5 7 = Some [lit "hi"]) /\
  (forall fuel, chunk_text fuel (lit "abcdefghij") 5 5 = None).
Proof.
  split; intros fuel.
  - reflexivity.
  - unfold chunk_text. change (len (lit "abcdefghij") <=? 5) with false.
    cbn iota. apply chunk_loop_no_progress; [lia | lia | reflexivity | reflexivity].
Qed.

End chunker_termination.

(** ** More on the resilient call wrapper *)

#[local] Set Warnings "-clear-no-such-hyp".

Section wrapper_trace.
Import Wrapper Backoff.
Context {St V : Type} {platform : Platform}.
Variable api_function : St -> outcome V * St.

Lemma sleeps_app (tr1 tr2 : list event) :
  sleeps (tr1 ++ tr2) = sleeps tr1 ++ sleeps tr2.
Proof. unfold sleeps. apply omap_app. Qed.

Lemma delays_S (rd attempt : Z) (k : nat) :
  delays rd attempt (S k) = rd * (attempt + 1) :: delays rd (attempt + 1) k.
Proof.
  unfold delays. simpl. f_equal; [f_equal; lia|].
  rewrite <- seq_shift, map_map. apply map_ext. intros i. f_equal. lia.
Qed.

Lemma state_at_S_end (k : nat) (st : St) :
  state_at api_function (S k) st =
    snd (api_function (state_at api_function k st)).
Proof. revert st; induction k as [|k IH]; intros st; [done|]. apply IH. Qed.

(** The sleeps that go with the timeouts the loop gets over. *)
Lemma attempts_skip_sleeps (k todo : nat) (attempt mr rd : Z) (st : St) :
  (forall i, (i < k)%nat ->
     time_sleep (rd * (attempt + Z.of_nat i + 1)) = None) ->
  mr = attempt + Z.of_nat todo ->
  (k < todo)%nat -> timeouts_before api_function k st ->
  sleeps (trace (attempts api_function todo attempt mr rd st)) =
    delays rd attempt k ++
    sleeps (trace (attempts api_function (todo - k) (attempt + Z.of_nat k)
                     mr rd (state_at api_function k st))).
Proof.
  revert todo attempt st; induction k as [|k IH];
    intros todo attempt st Hsl Hmr Hk Hto.
  - simpl. by rewrite Nat.sub_0_r, Z.add_0_r.
  - destruct todo as [|todo]; [lia|].
    apply timeouts_before_S in Hto as [(e & He & Hcls) Hto].
    rewrite delays_S.
    cbn [Wrapper.attempts state_at].
    destruct (api_function st) as [o st'] eqn:Hcall; simpl in He, Hto |- *.
    subst o. rewrite Hcls.
    assert ((attempt <? mr - 1) = true) as -> by (apply Z.ltb_lt; lia).
    assert (time_sleep (rd * (attempt + 1)) = None) as ->.
    { rewrite <- (Hsl 0%nat) by lia. do 2 f_equal. lia. }
    rewrite !trace_emit, !sleeps_app. simpl. f_equal.
    rewrite (IH todo (attempt + 1) st'); [| | lia | lia | done].
    + by replace (attempt + 1 + Z.of_nat k) with (attempt + Z.of_nat (S k))
        by lia.
    + intros i Hi. rewrite <- (Hsl (S i)) by lia. do 2 f_equal. lia.
Qed.

Lemma wrapper_skip_sleeps (k : nat) (mr rd : Z) (st : St) :
  sleeps_return rd k -> (k < Z.to_nat mr)%nat ->
  timeouts_before api_function k st ->
  sleeps (trace (wrapper api_function mr rd st)) =
    delays rd 0 k ++
    sleeps (trace (attempts api_function (Z.to_nat mr - k) (Z.of_nat k)
                     mr rd (state_at api_function k st))).
Proof.
  intros Hsl Hk Hto. unfold wrapper.
  apply (attempts_skip_sleeps k (Z.to_nat mr) 0 mr rd st);
    [exact Hsl | lia | done | done].
Qed.

(** X1. The first attempt that succeeds, after [k] timeouts and the sleeps
    that follow them, ends the run: the wrapper hands back the function's
    value, the function has been invoked [k + 1] times and not once more,
    and the sleeps in between lasted [retry_delay * 1], ...,
    [retry_delay * k]. *)
Theorem first_success_ends_run (max_retries retry_delay : Z) (st : St)
    (k : nat) (v : V) :
  (k < Z.to_nat max_retries)%nat ->
  timeouts_before api_function k st -> sleeps_return retry_delay k ->
  outcome_at api_function k st = Returns v ->
  let r := wrapper api_function max_retries retry_delay st in
  result r = WValue v /\
  invocations (trace r) = S k /\
  sleeps (trace r) = delays retry_delay 0 k /\
  final r = state_at api_function (S k) st.
Proof.
  intros Hk Hto Hsl Hv r; subst r.
  destruct (wrapper_skip_timeouts api_function k max_retries retry_delay st)
    as (Hr & Hf & Hi); [done | done | done |].
  rewrite Hr, Hf, Hi, (wrapper_skip_sleeps k) by done.
  rewrite state_at_S_end.
  destruct (Z.to_nat max_retries - k)%nat as [|todo] eqn:Htodo; [lia|].
  unfold outcome_at in Hv. simpl.
  destruct (api_function (state_at api_function k st)) as [o st'];
    simpl in Hv; subst o; simpl.
  rewrite app_nil_r. repeat split; lia.
Qed.

(** X2. When all [max_retries >= 1] attempts time out and [time.sleep]
    returns from each sleep, the wrapper has slept [max_retries - 1] times,
    for [retry_delay * 1], ..., [retry_delay * (max_retries - 1)]: there is
    no sleep after the last attempt. *)
Theorem all_timeouts_sleep_between (max_retries retry_delay : Z) (st : St) :
  1 <= max_retries ->
  timeouts_before api_function (Z.to_nat max_retries) st ->
  sleeps_return retry_delay (Z.to_nat max_retries - 1) ->
  sleeps (trace (wrapper api_function max_retries retry_delay st)) =
    delays retry_delay 0 (Z.to_nat max_retries - 1).
Proof.
  intros Hmr Hto Hsl.
  rewrite (wrapper_skip_sleeps (Z.to_nat max_retries - 1)); [|done|lia|].
  - replace (Z.to_nat max_retries - (Z.to_nat max_retries - 1))%nat
      with 1%nat by lia.
    destruct (Hto (Z.to_nat max_retries - 1)%nat) as (e & He & Hcls); [lia|].
    unfold outcome_at in He. simpl.
    destruct (api_function
                (state_at api_function (Z.to_nat max_retries - 1) st))
      as [o st']; simpl in He; subst o. rewrite Hcls.
    assert ((Z.of_nat (Z.to_nat max_retries - 1) <? max_retries - 1)
            = false) as -> by (apply Z.ltb_ge; lia).
    simpl. by rewrite app_nil_r.
  - intros i Hi; apply Hto; lia.
Qed.

Lemma not_exception_not_caught (e : exn) :
  isinstance e Exception = false ->
  isinstance e Timeout = false /\ isinstance e RequestException = false.
Proof. unfold isinstance. by destruct (exn_class e). Qed.

(** X3. An exception that is no instance of [Exception] (a
    [KeyboardInterrupt], a [SystemExit]), raised by the attempt that follows
    [k] timeouts and their sleeps, is not turned into an error dictionary:
    the wrapper lets it through at once, without another attempt. *)
Theorem base_exception_propagates (max_retries retry_delay : Z) (st : St)
    (k : nat) (e : exn) :
  (k < Z.to_nat max_retries)%nat ->
  timeouts_before api_function k st -> sleeps_return retry_delay k ->
  outcome_at api_function k st = Raises e ->
  isinstance e Exception = false ->
  let r := wrapper api_function max_retries retry_delay st in
  result r = WRaises e /\ invocations (trace r) = S k.
Proof.
  intros Hk Hto Hsl He Hcls r; subst r.
  destruct (not_exception_not_caught e Hcls) as (Hto' & Hreq).
  destruct (wrapper_skip_timeouts api_function k max_retries retry_delay st)
    as (Hr & _ & Hi); [done | done | done |].
  destruct (Z.to_nat max_retries - k)%nat as [|todo] eqn:Htodo; [lia|].
  destruct (attempts_other_exception api_function todo (Z.of_nat k)
              max_retries retry_delay (state_at api_function k st) e He Hto')
    as (Hi' & Hr').
  rewrite Hr, Hi, Hi', Hr', Hreq, Hcls. split; [done | lia].
Qed.

(** X4. With more than one attempt allowed, a timeout of the first attempt
    followed by a delay that [time.sleep] refuses makes the wrapper itself
    raise, on any platform: the [ValueError] for a negative [retry_delay]
    down to [- sleep_limit], the [OverflowError] for one beyond
    [sleep_limit] either way.  Nothing catches that, nothing is slept, the
    function is not invoked again and no dictionary is returned. *)
Theorem refused_delay_raises (max_retries retry_delay : Z) (st : St)
    (e : exn) :
  2 <= max_retries ->
  outcome_at api_function 0 st = Raises e -> isinstance e Timeout = true ->
  retry_delay < 0 \/ sleep_limit < retry_delay ->
  let r := wrapper api_function max_retries retry_delay st in
  (- sleep_limit <= retry_delay < 0 -> result r = WRaises sleep_error) /\
  (retry_delay < - sleep_limit \/ sleep_limit < retry_delay ->
   result r = WRaises overflow_error) /\
  invocations (trace r) = 1%nat /\ sleeps (trace r) = [] /\
  final r = snd (api_function st).
Proof.
  intros Hmr He Hcls Hrd r; subst r; unfold wrapper.
  destruct (Z.to_nat max_retries) as [|todo] eqn:Htodo; [lia|].
  unfold outcome_at in He. simpl in He |- *.
  destruct (api_function st) as [o st']; simpl in He; subst o.
  rewrite Hcls.
  assert ((0 <? max_retries - 1) = true) as -> by (apply Z.ltb_lt; lia).
  replace (retry_delay * (0 + 1)) with retry_delay by lia.
  unfold time_sleep.
  destruct (Z.ltb_spec retry_delay (- sleep_limit)) as [Hlo|Hlo];
    destruct (Z.ltb_spec sleep_limit retry_delay) as [Hhi|Hhi]; simpl;
    try (repeat split; (done || intros; lia)).
  destruct (Z.ltb_spec retry_delay 0) as [Hneg|Hneg]; [|lia].
  repeat split; (done || intros; lia).
Qed.

End wrapper_trace.

Section wrapper_and_formatter.
Import Wrapper Formatter.
Context {St V : Type} {platform : Platform}.
Variable api_function : St -> outcome V * St.

Lemma format_error_dict (error details : string) :
  format_policy_response (error_dict error details) =
    "Error: " +:+ error +:+ nl +:+ "Details: " +:+ details.
Proof.
  unfold format_policy_response, error_dict.
  rewrite lookup_insert_eq, lookup_insert_ne by done.
  by rewrite lookup_insert_eq.
Qed.

(** X5. Whatever dictionary the wrapper itself returns is rendered by the
    formatter as an error block.  It is the dictionary "Max retries
    exceeded", without details, exactly when [max_retries <= 0]; otherwise
    it is made of an exception the function raised at one of its
    invocations, an instance of [Exception]: the error is the one of the
    clause that caught it, and the details are its text. *)
Theorem wrapper_failure_renders_as_error (max_retries retry_delay : Z)
    (st : St) (d : gmap string pyval) :
  result (wrapper api_function max_retries retry_delay st) = WDict d ->
  (max_retries <= 0 /\
   dom d = ({["error"]} : gset string) /\
   format_policy_response d =
     "Error: Max retries exceeded" +:+ nl +:+ "Details: N/A") \/
  (0 < max_retries /\
   exists (k : nat) (e : exn),
     (k < Z.to_nat max_retries)%nat /\
     outcome_at api_function k st = Raises e /\
     isinstance e Exception = true /\
     fails_with (V:=V) (WDict d) (error_of e) (exn_str e) /\
     format_policy_response d =
       "Error: " +:+ error_of e +:+ nl +:+ "Details: " +:+ exn_str e).
Proof.
  unfold wrapper. intros Hd.
  destruct (Z_le_gt_dec max_retries 0) as [Hle|Hgt].
  - left. replace (Z.to_nat max_retries) with 0%nat in Hd by lia.
    simpl in Hd. injection Hd as <-. split; [done|]. split; [|done].
    unfold max_retries_exceeded. rewrite dom_insert_L, dom_empty_L.
    set_solver.
  - right. split; [lia|].
    destruct (attempts_dict_origin api_function (Z.to_nat max_retries) 0
                max_retries retry_delay st d)
      as (k & e & Hk & He & Hexc & ->); [lia | lia | done |].
    exists k, e. split; [done|]. split; [done|]. split; [done|].
    split; [apply error_dict_fails | apply format_error_dict].
Qed.

End wrapper_and_formatter.

Section formatter_fields.
Import Formatter.

(** X6. A mapping without the key [error] is rendered from its fields
    [title], [status], [publication_date], [summary], [source] and [url]
    alone: a mapping that agrees with it on these and has no [error] either
    is rendered the same, and when none of the six is there the output is
    the empty string. *)
Theorem format_uses_six_fields (data : gmap string pyval) :
  data !! "error" = None ->
  (forall data' : gmap string pyval,
     data' !! "error" = None ->
     (forall key,
        key ∈ ["title"; "status"; "publication_date"; "summary"; "source";
               "url"] -> data' !! key = data !! key) ->
     format_policy_response data' = format_policy_response data) /\
  ((forall key,
      key ∈ ["title"; "status"; "publication_date"; "summary"; "source";
             "url"] -> data !! key = None) ->
   format_policy_response data = "").
Proof.
  intros Herr. split.
  - intros data' Herr' Hsame. unfold format_policy_response, block.
    rewrite Herr, Herr'.
    by rewrite !Hsame by set_solver.
  - intros Hnone. unfold format_policy_response, block.
    rewrite Herr. by rewrite !Hnone by set_solver.
Qed.

End formatter_fields.

(** ** Environment check *)

Section environment_properties.
Import Environment.

Lemma truthy_false (value : option string) :
  truthy value = false <-> value = None \/ value = Some "".
Proof.
  destruct value as [[|c s]|]; simpl; split; try done; auto.
  - intros [H|H]; discriminate.
Qed.

Lemma filter_keeps_order {A : Type} (keep : A -> bool) (l : list A) :
  List.filter keep l `sublist_of` l.
Proof.
  induction l as [|x l IH]; simpl; [constructor|].
  destruct (keep x); by constructor.
Qed.

(** X7. [validate_env_vars] reports as missing exactly the required names
    that are unset or set to the empty string, in the order they were
    given and as often as they were given; and it says that all is valid
    exactly when every required name is set to a non-empty value. *)
Theorem validate_env_vars_missing (environ : gmap string string)
    (required_vars : list string) :
  let all_valid := fst (validate_env_vars environ required_vars) in
  let missing := snd (validate_env_vars environ required_vars) in
  (forall var,
     var ∈ missing <->
     var ∈ required_vars /\
     (environ !! var = None \/ environ !! var = Some "")) /\
  missing `sublist_of` required_vars /\
  (all_valid = true <->
   forall var, var ∈ required_vars ->
               exists value, environ !! var = Some value /\ value <> "").
Proof.
  intros all_valid missing; subst all_valid missing; simpl.
  set (absent := fun var => negb (truthy (getenv environ var))).
  assert (Hin : forall var,
    var ∈ List.filter absent required_vars <->
    var ∈ required_vars /\
    (environ !! var = None \/ environ !! var = Some "")).
  { intros var. rewrite !list_elem_of_In, filter_In. unfold absent.
    rewrite negb_true_iff, truthy_false. reflexivity. }
  split; [exact Hin|]. split.
  - apply filter_keeps_order.
  - rewrite Nat.eqb_eq, length_zero_iff_nil. split.
    + intros Hnil var Hvar.
      destruct (environ !! var) as [value|] eqn:Hval.
      * exists value. split; [done|]. intros ->.
        assert (var ∈ List.filter absent required_vars) as Hm
          by (apply Hin; auto).
        rewrite Hnil in Hm. by apply elem_of_nil in Hm.
      * assert (var ∈ List.filter absent required_vars) as Hm
          by (apply Hin; auto).
        rewrite Hnil in Hm. by apply elem_of_nil in Hm.
    + intros Hall.
      destruct (List.filter absent required_vars) as [|var vars] eqn:Hf;
        [done|].
      destruct (proj1 (Hin var)) as (Hreq & Hval); [by left|].
      destruct (Hall var Hreq) as (value & Hsome & Hne).
      destruct Hval as [Hval|Hval]; congruence.
Qed.

End environment_properties.

(** ** More on the text chunker *)

Section chunker_windows.
Import Chunker Markers.

Lemma chunk_loop_spans (fuel : nat) (s : text) (chunk_size overlap start : Z)
    (spans : list (Z * Z)) :
  chunk_loop fuel s chunk_size overlap start (map (chunk_of_span s) spans) =
    map (chunk_of_span s) <$> span_loop fuel s chunk_size overlap start spans.
Proof.
  revert start spans; induction fuel as [|fuel IH]; intros start spans;
    [done|].
  simpl. destruct (start <? len s); [|done].
  rewrite <- IH, map_app. reflexivity.
Qed.

Lemma span_loop_step (fuel : nat) (s : text) (chunk_size overlap start : Z)
    (spans : list (Z * Z)) :
  span_loop (S fuel) s chunk_size overlap start spans =
    if start <? len s then
      span_loop fuel s chunk_size overlap
        (next_start s overlap (window_end s chunk_size start))
        (spans ++ [(start, window_end s chunk_size start)])
    else Some spans.
Proof. reflexivity. Qed.

(** What a run that returns has gone through: windows that follow one
    another with the overlap, the last of them reaching the end. *)
Lemma span_loop_chain (fuel : nat) (s : text) (chunk_size overlap start : Z)
    (spans0 spans : list (Z * Z)) :
  0 <= overlap ->
  span_loop fuel s chunk_size overlap start spans0 = Some spans ->
  exists new : list (Z * Z),
    spans = spans0 ++ new /\
    (new = [] <-> len s <= start) /\
    (forall a b, head new = Some (a, b) -> a = start) /\
    (forall a b, last new = Some (a, b) -> len s <= b) /\
    (forall i a b a' b',
       new !! i = Some (a, b) -> new !! S i = Some (a', b') ->
       b < len s /\ a' = b - overlap) /\
    (forall i a b, new !! i = Some (a, b) ->
                   b = window_end s chunk_size a).
Proof.
  intros Hov.
  revert start spans0; induction fuel as [|fuel IH]; intros start spans0;
    [done|].
  rewrite span_loop_step. destruct (start <? len s) eqn:Hlt.
  - apply Z.ltb_lt in Hlt. intros Hrun.
    destruct (IH _ _ Hrun) as (new & -> & Hnil & Hhead & Hlast & Hchain & Hend).
    exists ((start, window_end s chunk_size start) :: new).
    split; [by rewrite <- app_assoc|].
    split; [split; [done | lia]|].
    split; [by intros a b [= <- <-]|].
    unfold next_start in Hnil, Hhead.
    split; [|split].
    + intros a b. destruct new as [|[a1 b1] rest] eqn:Hnew.
      * intros [= <- <-]. destruct (window_end s chunk_size start <? len s)
          eqn:Hw; [|by apply Z.ltb_ge in Hw].
        apply Z.ltb_lt in Hw. destruct Hnil as [Hnil _].
        specialize (Hnil eq_refl). lia.
      * rewrite last_cons_cons. apply Hlast.
    + intros [|i] a b a' b'; simpl.
      * intros [= <- <-] Hnext.
        destruct new as [|[a1 b1] rest]; [done|]. simpl in Hnext.
        injection Hnext as <- <-.
        specialize (Hhead a1 b1 eq_refl).
        destruct (window_end s chunk_size start <? len s) eqn:Hw.
        -- apply Z.ltb_lt in Hw. split; [done | lia].
        -- destruct Hnil as [_ Hnil]. apply Z.ltb_ge in Hw.
           by specialize (Hnil Hw).
      * apply Hchain.
    + intros [|i] a b; simpl; [by intros [= <- <-] | apply Hend].
  - apply Z.ltb_ge in Hlt. intros [= <-]. exists [].
    split; [by rewrite app_nil_r|]. repeat split; done.
Qed.

(** X8. Whenever the chunker returns for a text longer than [chunk_size],
    the chunks are the trimmed texts of windows that follow one another
    with the configured overlap: the first window starts at 0, every next
    one starts [overlap] characters before the end of the one before it,
    every window's end is the one the boundary search chose, all ends but
    the last lie before the end of the text, and the last end lies at it or
    beyond. *)
Theorem returned_windows_chain (fuel : nat) (s : text)
    (chunk_size overlap : Z) (chunks : list text) :
  0 <= chunk_size < len s -> 0 <= overlap ->
  chunk_text fuel s chunk_size overlap = Some chunks ->
  exists spans : list (Z * Z),
    chunks = map (fun span => strip (slice s (fst span) (snd span))) spans /\
    (exists b, head spans = Some (0, b)) /\
    (exists a b, last spans = Some (a, b) /\ len s <= b) /\
    (forall i a b a' b',
       spans !! i = Some (a, b) -> spans !! S i = Some (a', b') ->
       b < len s /\ a' = b - overlap) /\
    (forall i a b, spans !! i = Some (a, b) ->
                   b = window_end s chunk_size a).
Proof.
  intros Hcs Hov. unfold chunk_text.
  assert ((len s <=? chunk_size) = false) as -> by (apply Z.leb_gt; lia).
  change (@nil text) with (map (chunk_of_span s) []).
  rewrite chunk_loop_spans.
  destruct (span_loop fuel s chunk_size overlap 0 []) as [spans|] eqn:Hrun;
    [|done].
  simpl. intros [= <-].
  destruct (span_loop_chain _ _ _ _ _ _ _ Hov Hrun)
    as (new & -> & Hnil & Hhead & Hlast & Hchain & Hend).
  simpl. exists new. split; [done|].
  destruct new as [|[a b] rest] eqn:Hnew.
  { destruct Hnil as [Hnil _]. specialize (Hnil eq_refl). lia. }
  rewrite <- Hnew in *. split; [|split; [|by split]].
  - exists b. rewrite Hnew in *. simpl. f_equal. f_equal.
    by apply (Hhead a b).
  - destruct (last new) as [[a' b']|] eqn:Hl.
    + exists a', b'. split; [done|]. by apply (Hlast a' b').
    + rewrite Hnew in Hl. by apply last_None in Hl.
Qed.

End chunker_windows.

Section chunker_marker_free.
Import Chunker Markers.

Lemma find_stop_le (n stop : Z) : 0 <= n -> find_stop n stop <= n.
Proof. intros Hn. unfold find_stop. repeat case_match; lia. Qed.

Lemma len_nonneg (s : text) : 0 <= len s.
Proof. unfold len. lia. Qed.

Lemma puncts_len (punct : text) : punct ∈ puncts -> len punct = 2.
Proof.
  unfold puncts. rewrite !elem_of_cons, elem_of_nil.
  intros [->|[->|[->|[->|[]]]]]; reflexivity.
Qed.

(** In a text without markers no search finds anything. *)
Lemma marker_free_rfind (s punct : text) (start stop : Z) :
  marker_free s = true -> punct ∈ puncts -> rfind s punct start stop = -1.
Proof.
  intros Hfree Hp.
  destruct (decide (rfind s punct start stop = -1)) as [|Hne]; [done|].
  destruct (rfind_found _ _ _ _ Hne) as ((Hlo & Hhi & Hocc) & _).
  pose proof (occurs_at_nonneg _ _ _ Hocc) as Hpos.
  pose proof (find_stop_le (len s) stop (len_nonneg s)) as Hle.
  rewrite (puncts_len _ Hp) in Hhi.
  unfold marker_free in Hfree. rewrite forallb_forall in Hfree.
  specialize (Hfree punct (proj1 (list_elem_of_In _ _) Hp)).
  rewrite forallb_forall in Hfree.
  specialize (Hfree (Z.to_nat (rfind s punct start stop))).
  rewrite Z2Nat.id in Hfree by done.
  rewrite Hocc in Hfree. simpl in Hfree.
  exfalso. assert (false = true) as Hf; [|discriminate].
  apply Hfree. apply in_seq. unfold len in *. lia.
Qed.

Lemma marker_free_window_end (s : text) (chunk_size start : Z) :
  marker_free s = true -> window_end s chunk_size start = start + chunk_size.
Proof.
  intros Hfree. unfold window_end.
  destruct (start + chunk_size <? len s); [|done].
  unfold puncts. simpl.
  rewrite !(marker_free_rfind s _ start (start + chunk_size) Hfree);
    [done | | | |]; unfold puncts; set_solver.
Qed.

(** The run over a text without markers, from a cursor inside the text. *)
Lemma span_loop_marker_free (s : text) (chunk_size overlap : Z) :
  marker_free s = true -> 0 <= overlap < chunk_size ->
  forall (fuel : nat) (start : Z) (spans0 : list (Z * Z)),
    0 <= start < len s -> (Z.to_nat (len s - start) < fuel)%nat ->
    exists new : list (Z * Z),
      span_loop fuel s chunk_size overlap start spans0 = Some (spans0 ++ new) /\
      (forall (i : nat) a b,
         new !! i = Some (a, b) ->
         a = start + Z.of_nat i * (chunk_size - overlap) /\
         b = a + chunk_size) /\
      (forall p, start <= p < len s ->
                 exists a b, (a, b) ∈ new /\ a <= p < b).
Proof.
  intros Hfree Hov.
  induction fuel as [|fuel IH]; intros start spans0 Hstart Hfuel; [lia|].
  rewrite span_loop_step, marker_free_window_end by done.
  assert ((start <? len s) = true) as -> by (apply Z.ltb_lt; lia).
  unfold next_start.
  destruct (start + chunk_size <? len s) eqn:Hw.
  - apply Z.ltb_lt in Hw.
    destruct (IH (start + chunk_size - overlap)
                (spans0 ++ [(start, start + chunk_size)]))
      as (new & Hrun & Hidx & Hcov); [lia | lia |].
    exists ((start, start + chunk_size) :: new).
    split; [by rewrite Hrun, <- app_assoc|]. split.
    + intros [|i] a b; simpl.
      * intros [= <- <-]. lia.
      * intros Hi. destruct (Hidx i a b Hi) as (-> & ->). lia.
    + intros p Hp. destruct (Z_lt_ge_dec p (start + chunk_size)) as [Hin|Hout].
      * exists start, (start + chunk_size). split; [by left | lia].
      * destruct (Hcov p) as (a & b & Hab & Hpab); [lia|].
        exists a, b. split; [by right | done].
  - apply Z.ltb_ge in Hw.
    destruct fuel as [|fuel]; [lia|].
    rewrite span_loop_step.
    assert ((start + chunk_size <? len s) = false) as ->
      by (apply Z.ltb_ge; lia).
    exists [(start, start + chunk_size)]. split; [done|]. split.
    + intros [|i] a b; simpl; [|done]. intros [= <- <-]. lia.
    + intros p Hp. exists start, (start + chunk_size).
      split; [by left | lia].
Qed.

(** X9. A text without boundary markers that is longer than [chunk_size],
    chunked with [0 <= overlap < chunk_size], is cut into windows of
    exactly [chunk_size] characters, the window number [i] starting at
    [i * (chunk_size - overlap)]: the chunker returns (with fuel beyond the
    length of the text), every position of the text lies in a window, and
    the chunks are the trimmed texts of the windows. *)
Theorem marker_free_text_is_tiled (fuel : nat) (s : text)
    (chunk_size overlap : Z) :
  marker_free s = true -> 0 <= overlap < chunk_size -> chunk_size < len s ->
  (length s < fuel)%nat ->
  exists spans : list (Z * Z),
    chunk_text fuel s chunk_size overlap =
      Some (map (fun span => strip (slice s (fst span) (snd span))) spans) /\
    (forall (i : nat) a b,
       spans !! i = Some (a, b) ->
       a = Z.of_nat i * (chunk_size - overlap) /\ b = a + chunk_size) /\
    (forall p, 0 <= p < len s -> exists a b, (a, b) ∈ spans /\ a <= p < b).
Proof.
  intros Hfree Hov Hlen Hfuel.
  destruct (span_loop_marker_free s chunk_size overlap Hfree Hov fuel 0 [])
    as (new & Hrun & Hidx & Hcov); [lia | unfold len; lia |].
  exists new. split; [|split; [|done]].
  - unfold chunk_text.
    assert ((len s <=? chunk_size) = false) as -> by (apply Z.leb_gt; lia).
    change (@nil text) with (map (chunk_of_span s) []).
    by rewrite chunk_loop_spans, Hrun.
  - intros i a b Hi. destruct (Hidx i a b Hi) as (-> & ->). lia.
Qed.

End chunker_marker_free.

Section chunker_chunks.
Import Chunker Markers.

(** A property of every window's chunk is a property of every chunk the
    loop returns. *)
Lemma chunk_loop_Forall (P : text -> Prop) (s : text)
    (chunk_size overlap : Z) :
  (forall start, start < len s ->
     P (strip (slice s start (window_end s chunk_size start)))) ->
  forall (fuel : nat) (start : Z) (chunks0 chunks : list text),
    Forall P chunks0 ->
    chunk_loop fuel s chunk_size overlap start chunks0 = Some chunks ->
    Forall P chunks.
Proof.
  intros Hwin. induction fuel as [|fuel IH]; intros start chunks0 chunks H0;
    [done|].
  rewrite chunk_loop_step. destruct (start <? len s) eqn:Hlt.
  - apply Z.ltb_lt in Hlt. apply IH, Forall_app. split; [done|].
    constructor; [by apply Hwin | constructor].
  - by intros [= <-].
Qed.

Lemma lstrip_head (c : text) (a : ascii) :
  head (lstrip c) = Some a -> isspace a = false.
Proof.
  induction c as [|b c IH]; simpl; [done|].
  destruct (isspace b) eqn:Hb; [done|]. by intros [= <-].
Qed.

Lemma lstrip_suffix (c : text) : lstrip c `suffix_of` c.
Proof.
  induction c as [|b c IH]; simpl; [done|].
  destruct (isspace b); [by apply suffix_cons_r | done].
Qed.

Lemma rstrip_prefix (c : text) : rstrip c `prefix_of` c.
Proof.
  unfold rstrip. destruct (lstrip_suffix (rev c)) as [k Hk].
  exists (rev k). apply (f_equal (@rev ascii)) in Hk.
  by rewrite rev_involutive, rev_app_distr in Hk.
Qed.

Lemma last_rev (c : text) : last (rev c) = head c.
Proof. destruct c as [|b c]; simpl; [done | apply last_snoc]. Qed.

Lemma rstrip_last (c : text) (a : ascii) :
  last (rstrip c) = Some a -> isspace a = false.
Proof. unfold rstrip. rewrite last_rev. apply lstrip_head. Qed.

(** [strip] leaves no whitespace at either end. *)
Lemma strip_trimmed (c : text) : trimmed (strip c).
Proof.
  unfold trimmed, strip. split; [|apply rstrip_last].
  intros a Ha. destruct (rstrip_prefix (lstrip c)) as [k Hk].
  apply (lstrip_head c). rewrite Hk.
  by destruct (rstrip (lstrip c)).
Qed.

(** X10. Every chunk the chunker returns for a text longer than
    [chunk_size] is trimmed: it neither begins nor ends with whitespace. *)
Theorem loop_chunks_are_trimmed (fuel : nat) (s : text)
    (chunk_size overlap : Z) (chunks : list text) :
  chunk_size < len s ->
  chunk_text fuel s chunk_size overlap = Some chunks ->
  Forall trimmed chunks.
Proof.
  intros Hlen. unfold chunk_text.
  assert ((len s <=? chunk_size) = false) as -> by (apply Z.leb_gt; lia).
  apply chunk_loop_Forall; [|constructor].
  intros start _. apply strip_trimmed.
Qed.

Lemma lstrip_length (c : text) : (length (lstrip c) <= length c)%nat.
Proof. apply suffix_length, lstrip_suffix. Qed.

Lemma strip_length (c : text) : (length (strip c) <= length c)%nat.
Proof.
  unfold strip. etrans; [apply prefix_length, rstrip_prefix|].
  apply lstrip_length.
Qed.

Lemma slice_length (s : text) (start stop : Z) :
  len (slice s start stop) <=
    Z.max 0 (slice_bound (len s) stop - slice_bound (len s) start).
Proof.
  unfold slice, len. rewrite length_take. lia.
Qed.

(** The window that starts at [start] spans no more than [chunk_size]
    characters of a text longer than that. *)
Lemma window_width (s : text) (chunk_size start : Z) :
  0 <= chunk_size < len s ->
  slice_bound (len s) (window_end s chunk_size start)
    - slice_bound (len s) start <= chunk_size.
Proof.
  intros Hcs. unfold window_end.
  destruct (start + chunk_size <? len s) eqn:Hw.
  - apply Z.ltb_lt in Hw.
    destruct (break_at_first_marker s start (start + chunk_size) puncts)
      as [(earlier & later & punct & pos & _ & _ & (Hlo & Hhi & Hocc) & _ & ->)
         |(_ & ->)].
    + apply occurs_at_nonneg in Hocc.
      assert (0 <= len punct) by apply len_nonneg.
      unfold find_start, find_stop, slice_bound in *.
      repeat case_match; lia.
    + unfold slice_bound. repeat case_match; lia.
  - apply Z.ltb_ge in Hw. unfold slice_bound. repeat case_match; lia.
Qed.

(** X11. With [chunk_size >= 0], no chunk the chunker returns is longer
    than [chunk_size] characters. *)
Theorem chunks_fit_chunk_size (fuel : nat) (s : text)
    (chunk_size overlap : Z) (chunks : list text) :
  0 <= chunk_size ->
  chunk_text fuel s chunk_size overlap = Some chunks ->
  Forall (fun chunk => len chunk <= chunk_size) chunks.
Proof.
  intros Hcs. unfold chunk_text.
  destruct (len s <=? chunk_size) eqn:Hshort.
  - apply Z.leb_le in Hshort. intros [= <-]. by constructor.
  - apply Z.leb_gt in Hshort.
    apply chunk_loop_Forall; [|constructor].
    intros start _.
    pose proof (strip_length (slice s start (window_end s chunk_size start))).
    pose proof (slice_length s start (window_end s chunk_size start)).
    pose proof (window_width s chunk_size start ltac:(lia)).
    unfold len in *. lia.
Qed.

End chunker_chunks.

(** ** More on the record normalizer *)

Section normalizer_attributes.
Import Normalizer.

Lemma extract_metadata_lookup (df : DataFrame) (row : gmap string pyval)
    (cols : list string) (acc : gmap string string) (col : string) :
  extract_metadata df row cols acc !! col =
    if bool_decide (col ∈ cols) && has_column df col && notna (cell row col)
    then Some (str (cell row col)) else acc !! col.
Proof.
  revert acc; induction cols as [|c cols IH]; intros acc; simpl; [done|].
  rewrite IH. destruct (decide (col = c)) as [->|Hne].
  - rewrite (bool_decide_eq_true_2 (c ∈ c :: cols)) by left.
    destruct (bool_decide (c ∈ cols)), (has_column df c),
      (notna (cell row c)); simpl; by rewrite ?lookup_insert_eq.
  - assert (bool_decide (col ∈ c :: cols) = bool_decide (col ∈ cols)) as ->.
    { apply bool_decide_ext. set_solver. }
    destruct (bool_decide (col ∈ cols) && has_column df col &&
              notna (cell row col)); [done|].
    destruct (has_column df c && notna (cell row c)); [|done].
    by rewrite lookup_insert_ne.
Qed.

(** X12. The attributes of a record hold exactly the listed metadata
    columns that the frame has and whose cell in the record's row is
    neither [None] nor NaN, each with the cell rendered as a string. *)
Theorem attributes_are_present_cells (df : DataFrame)
    (text_column id_column : string) (metadata_columns : list string)
    (r : policy_record) :
  r ∈ records (prepare_policy_records df text_column id_column
                 (Some metadata_columns)) ->
  exists (idx : pyval) (row : gmap string pyval),
    (idx, row) ∈ rows df /\
    text r = str (cell row text_column) /\
    forall (col value : string),
      attributes r !! col = Some value <->
      col ∈ metadata_columns /\ has_column df col = true /\
      notna (cell row col) = true /\ value = str (cell row col).
Proof.
  unfold prepare_policy_records. rewrite prepare_rows_by_row. simpl.
  destruct (has_column df text_column); simpl;
    [|by intros H; apply elem_of_nil in H].
  rewrite list_elem_of_fmap. intros ([idx row] & -> & Hin).
  exists idx, row. split; [done|]. split; [done|].
  intros col value. unfold record_of_row; simpl.
  rewrite extract_metadata_lookup, lookup_empty.
  destruct (bool_decide (col ∈ metadata_columns)) eqn:Hcol; simpl.
  - apply bool_decide_eq_true in Hcol.
    destruct (has_column df col); simpl; [|naive_solver].
    destruct (notna (cell row col)); simpl; naive_solver.
  - apply bool_decide_eq_false in Hcol. naive_solver.
Qed.

Lemma doc_id_inj (z1 z2 : Z) :
  "doc_" +:+ str (VInt z1) = "doc_" +:+ str (VInt z2) -> z1 = z2.
Proof.
  unfold str. intros H.
  change ("doc_" +:+ pretty z1) with
    (String "d" (String "o" (String "c" (String "_" (pretty z1))))) in H.
  change ("doc_" +:+ pretty z2) with
    (String "d" (String "o" (String "c" (String "_" (pretty z2))))) in H.
  injection H as H. by apply (inj pretty) in H.
Qed.

(** X13. For a frame without id column whose index labels are pairwise
    distinct integers, as those of the default index are, the synthesized
    ids of the records are pairwise distinct. *)
Theorem synthesized_ids_are_distinct (df : DataFrame)
    (text_column id_column : string) (metadata_columns : option (list string)) :
  has_column df id_column = false ->
  Forall (fun r => exists z, fst r = VInt z) (rows df) ->
  NoDup (fst <$> rows df) ->
  NoDup (id <$> records (prepare_policy_records df text_column id_column
                           metadata_columns)).
Proof.
  intros Hid Hint Hnd. unfold prepare_policy_records.
  rewrite prepare_rows_by_row. simpl.
  destruct (has_column df text_column); simpl; [|constructor].
  rewrite <- list_fmap_compose.
  assert (Heq : id ∘ record_of_row df text_column id_column
                       (default default_metadata_columns metadata_columns)
                = (fun idx => "doc_" +:+ str idx) ∘ fst).
  { unfold record_of_row, compose. by rewrite Hid. }
  rewrite Heq, list_fmap_compose.
  apply NoDup_fmap_2_strong; [|done].
  intros idx1 idx2 H1 H2 Hsame.
  apply list_elem_of_fmap in H1 as (r1 & -> & Hr1).
  apply list_elem_of_fmap in H2 as (r2 & -> & Hr2).
  rewrite Forall_forall in Hint.
  destruct (Hint r1 Hr1) as (z1 & Hz1), (Hint r2 Hr2) as (z2 & Hz2).
  rewrite Hz1, Hz2 in *. f_equal. by apply doc_id_inj.
Qed.

End normalizer_attributes.

(** ** The case-law tool *)

Section court_listener_properties.
Import Wrapper CourtListener.

Lemma first_cases_length (limit : Z) (cases : list case) :
  0 <= limit ->
  length (first_cases limit cases) = Nat.min (Z.to_nat limit) (length cases).
Proof.
  intros Hlimit. unfold first_cases, Chunker.slice_bound.
  assert ((limit <? 0) = false) as -> by (apply Z.ltb_ge; lia).
  rewrite length_take. lia.
Qed.

(** The mock data before it is cut: one or two cases. *)
Lemma mock_selection (regulation : string) :
  exists cases : list case,
    (forall limit, _get_mock_case_law regulation limit =
                   first_cases limit cases) /\
    (1 <= length cases <= 2)%nat.
Proof.
  unfold _get_mock_case_law, mock_cases, first_mention.
  repeat case_match; simplify_eq; eexists; (split; [done | simpl; lia]).
Qed.

(** X14. The mock case law for a regulation and a limit [>= 0] holds at
    most [limit] cases and never more than two, and at least one case as
    soon as [limit >= 1]; a regulation that mentions Section 230, in any
    capitals, gets the cases on Section 230. *)
Theorem mock_case_law_bounded (regulation : string) (limit : Z) :
  0 <= limit ->
  (length (_get_mock_case_law regulation limit) <= Z.to_nat limit)%nat /\
  (length (_get_mock_case_law regulation limit) <= 2)%nat /\
  (1 <= limit -> _get_mock_case_law regulation limit <> []) /\
  (contains "section 230" (lower regulation) = true ->
   _get_mock_case_law regulation limit = first_cases limit section_230_cases).
Proof.
  intros Hlimit. destruct (mock_selection regulation) as (cases & Hsel & Hn).
  rewrite Hsel. pose proof (first_cases_length limit cases Hlimit) as Hlen.
  split; [lia|]. split; [lia|]. split.
  - intros Hone Hnil. rewrite Hnil in Hlen. simpl in Hlen. lia.
  - intros Hmention. rewrite <- Hsel.
    unfold _get_mock_case_law, mock_cases. cbn [first_mention].
    change (lower "Section 230") with "section 230". by rewrite Hmention.
Qed.

Context {St : Type} {platform : Platform}.
Variable request : string -> Z -> St -> outcome (list case) * St.

(** X15. The decorated [search_case_law] is never retried and never
    answers with an error dictionary: with at least one attempt allowed it
    is invoked exactly once and the wrapper does not sleep.  Without an API
    key it does not send a request and hands back the mock cases; with a
    key, whatever [Exception] the request raises, a timeout too, is caught
    inside and answered with the mock cases. *)
Theorem search_case_law_never_retried (api_key : option string)
    (regulation_reference : string) (limit max_retries retry_delay : Z)
    (st : St) :
  1 <= max_retries ->
  let r := wrapper (search_case_law request api_key regulation_reference limit)
             max_retries retry_delay st in
  invocations (trace r) = 1%nat /\ sleeps (trace r) = [] /\
  (forall d, result r <> WDict d) /\
  (Environment.truthy api_key = false ->
   result r = WValue (_get_mock_case_law regulation_reference limit) /\
   final r = st) /\
  (forall e, Environment.truthy api_key = true ->
             fst (request regulation_reference limit st) = Raises e ->
             isinstance e Exception = true ->
             result r = WValue (_get_mock_case_law regulation_reference limit)).
Proof.
  intros Hmr r; subst r; unfold wrapper.
  destruct (Z.to_nat max_retries) as [|todo] eqn:Htodo; [lia|].
  simpl. unfold search_case_law.
  destruct (Environment.truthy api_key); simpl.
  - destruct (request regulation_reference limit st) as [[cases|e] st'];
      simpl.
    + repeat split; try done; intros; congruence.
    + destruct (isinstance e Exception) eqn:Hexc; simpl.
      * repeat split; try done; intros; congruence.
      * destruct (not_exception_not_caught e Hexc) as (-> & ->).
        rewrite Hexc. simpl. repeat split; try done; intros; congruence.
  - repeat split; try done; intros; congruence.
Qed.

End court_listener_properties.

(** ** The notification tool *)

Section slack_properties.
Import Wrapper Slack Formatter.
Context {St : Type} {platform : Platform}.
Variable post : string -> payload -> St -> outcome Response * St.

(** X16. Without a webhook address, none given or an empty one, the
    decorated [send_notification] posts nothing: the one invocation leaves
    the outside world as it was and hands back, as its value, a dictionary
    that the formatter renders as the error "No Slack webhook URL
    configured" with details "N/A". *)
Theorem send_notification_unconfigured (webhook_url : option string)
    (title content source : string) (url : option string)
    (max_retries retry_delay : Z) (st : St) :
  Environment.truthy webhook_url = false -> 1 <= max_retries ->
  let r := wrapper (send_notification post webhook_url title content source url)
             max_retries retry_delay st in
  result r = WValue no_webhook /\ final r = st /\
  invocations (trace r) = 1%nat /\
  format_policy_response no_webhook =
    "Error: No Slack webhook URL configured" +:+ nl +:+ "Details: N/A".
Proof.
  intros Hurl Hmr r; subst r; unfold wrapper.
  destruct (Z.to_nat max_retries) as [|todo] eqn:Htodo; [lia|].
  simpl. unfold send_notification. rewrite Hurl.
  by destruct webhook_url.
Qed.

(** A value the wrapper hands back is a value the function returned. *)
Lemma attempts_value {V : Type} (f : St -> outcome V * St) (todo : nat)
    (attempt mr rd : Z) (st : St) (v : V) :
  result (attempts f todo attempt mr rd st) = WValue v ->
  exists st', fst (f st') = Returns v.
Proof.
  revert attempt st; induction todo as [|todo IH]; intros attempt st;
    [done|].
  simpl. destruct (f st) as [o st'] eqn:Hcall. destruct o as [v'|e].
  - simpl. intros [= <-]. exists st. by rewrite Hcall.
  - rewrite result_emit. repeat case_match; rewrite ?result_emit; try done.
    apply IH.
Qed.

Lemma ok_no_error (response : Response) :
  raise_for_status response = None -> ok response = true.
Proof. unfold ok. by intros ->. Qed.

(** X17. The decorated [send_notification] never reports [sent] as false:
    a response with a status from 400 to 599 is turned into an [HTTPError]
    by the status check, and the wrapper answers that, without another
    attempt, with the error "API unavailable". *)
Theorem send_notification_never_unsent (webhook_url : option string)
    (title content source : string) (url : option string)
    (max_retries retry_delay : Z) (st : St) :
  let r := wrapper (send_notification post webhook_url title content source url)
             max_retries retry_delay st in
  (forall value, result r = WValue value ->
                 value !! "sent" <> Some (VBool false)) /\
  (forall webhook response e,
     1 <= max_retries -> webhook_url = Some webhook ->
     Environment.truthy webhook_url = true ->
     fst (post webhook (notification_payload title content source url) st)
       = Returns response ->
     raise_for_status response = Some e ->
     result r = WDict (error_dict "API unavailable" (exn_str e)) /\
     fails_with (result r) "API unavailable" (exn_str e) /\
     invocations (trace r) = 1%nat).
Proof.
  intros r; subst r; unfold wrapper. split.
  - intros value Hv. apply attempts_value in Hv as (st' & Hret).
    unfold send_notification in Hret.
    destruct webhook_url as [webhook|];
      [|cbn [fst] in Hret; by simplify_eq].
    destruct (Environment.truthy (Some webhook)); cbn [negb] in Hret;
      [|cbn [fst] in Hret; by simplify_eq].
    destruct (post webhook _ st') as [[response|e] st''];
      cbn [fst] in Hret; [|done].
    destruct (raise_for_status response) eqn:Hstatus; cbn [fst] in Hret;
      [done|].
    simplify_eq.
    rewrite lookup_insert_ne, lookup_insert_eq by done.
    by rewrite (ok_no_error _ Hstatus).
  - intros webhook response e Hmr -> Hurl Hpost Hstatus.
    destruct (Z.to_nat max_retries) as [|todo] eqn:Htodo; [lia|].
    simpl. unfold send_notification. rewrite Hurl. simpl.
    destruct (post webhook _ st) as [o st']; simpl in Hpost; subst o.
    rewrite Hstatus.
    unfold raise_for_status in Hstatus.
    repeat case_match; simplify_eq;
      (split; [done | split; [apply error_dict_fails | done]]).
Qed.

(** X18. [send_simple_message], which is neither decorated nor checks the
    status, answers a response of any status with [sent] true exactly when
    the status lies outside 400 to 599, and lets an exception of the post
    through. *)
Theorem send_simple_message_reports_status (webhook : string)
    (message : string) (st : St) :
  Environment.truthy (Some webhook) = true ->
  match post webhook {| text := message; blocks := None |} st with
  | (Returns response, st') =>
    send_simple_message post (Some webhook) message st =
      (Returns
         (<["status" := VInt (status_code response)]>
            (<["sent" :=
                 VBool (negb ((400 <=? status_code response)
                              && (status_code response <? 600)))]> ∅)), st')
  | (Raises e, st') =>
    send_simple_message post (Some webhook) message st = (Raises e, st')
  end.
Proof.
  intros Hurl. unfold send_simple_message. rewrite Hurl. simpl.
  destruct (post webhook _ st) as [[response|e] st']; [|done].
  do 4 f_equal. unfold ok, raise_for_status, is_client_error, is_server_error.
  destruct (400 <=? status_code response) eqn:H4,
    (status_code response <? 500) eqn:H5,
    (500 <=? status_code response) eqn:H6,
    (status_code response <? 600) eqn:H7; simpl; try done; lia.
Qed.

End slack_properties.

(** ** The properties above at concrete inputs *)

Section more_examples.
Import Wrapper Backoff Chunker Markers Normalizer Formatter Environment.
Import CourtListener Slack Scenarios MoreScenarios.

Lemma third_time_lucky_timeouts : timeouts_before third_time_lucky 2 0%nat.
Proof.
  intros i Hi. exists (Exn Timeout "read timed out").
  destruct i as [|[|i]]; [by split | by split | lia].
Qed.

Lemma first_success_ends_run_witness :
  result (wrapper third_time_lucky 3 1 0%nat) = WValue "ok" /\
  invocations (trace (wrapper third_time_lucky 3 1 0%nat)) = 3%nat /\
  sleeps (trace (wrapper third_time_lucky 3 1 0%nat)) = delays 1 0 2 /\
  final (wrapper third_time_lucky 3 1 0%nat) =
    state_at third_time_lucky 3 0%nat.
Proof.
  apply (first_success_ends_run third_time_lucky 3 1 0%nat 2 "ok");
    [simpl; lia | apply third_time_lucky_timeouts
    | intros i Hi; destruct i as [|[|i]]; [reflexivity | reflexivity | lia]
    | reflexivity].
Defined.

Lemma all_timeouts_sleep_between_witness :
  sleeps (trace (wrapper always_timeout 3 1 tt)) = delays 1 0 2.
Proof.
  apply (all_timeouts_sleep_between always_timeout 3 1 tt);
    [lia | apply always_timeout_before
    | intros i Hi; destruct i as [|[|i]];
      [reflexivity | reflexivity | simpl in Hi; lia]].
Defined.

Lemma base_exception_propagates_witness :
  result (wrapper timeout_then_interrupted 3 1 0%nat) =
    WRaises (Exn BaseException "") /\
  invocations (trace (wrapper timeout_then_interrupted 3 1 0%nat)) = 2%nat.
Proof.
  apply (base_exception_propagates timeout_then_interrupted 3 1 0%nat 1
           (Exn BaseException ""));
    [simpl; lia
    | intros i Hi; assert (i = 0%nat) as -> by lia;
      exists (Exn Timeout "read timed out"); by split
    | intros i Hi; assert (i = 0%nat) as -> by lia; reflexivity
    | reflexivity | reflexivity].
Defined.

Lemma refused_delay_raises_witness :
  (result (wrapper always_timeout 3 (-1) tt) = WRaises sleep_error /\
   invocations (trace (wrapper always_timeout 3 (-1) tt)) = 1%nat) /\
  (result (wrapper always_timeout 3 10000000000 tt) = WRaises overflow_error /\
   invocations (trace (wrapper always_timeout 3 10000000000 tt)) = 1%nat).
Proof.
  split.
  - destruct (refused_delay_raises always_timeout 3 (-1) tt
                (Exn Timeout "read timed out")) as (Hvalue & _ & Hi & _);
      [lia | reflexivity | reflexivity | left; lia |].
    split; [apply Hvalue; unfold sleep_limit; lia | exact Hi].
  - destruct (refused_delay_raises always_timeout 3 10000000000 tt
                (Exn Timeout "read timed out")) as (_ & Hoverflow & Hi & _);
      [lia | reflexivity | reflexivity | right; unfold sleep_limit; lia |].
    split; [apply Hoverflow; right; unfold sleep_limit; lia | exact Hi].
Defined.

Lemma wrapper_failure_renders_as_error_witness :
  format_policy_response (error_dict "Timeout" "read timed out") =
    "Error: Timeout" +:+ nl +:+ "Details: read timed out".
Proof.
  destruct (wrapper_failure_renders_as_error always_timeout 3 1 tt
              (error_dict "Timeout" "read timed out"))
    as [(Hle & _)|(_ & k & e & _ & He & _ & _ & Hformat)];
    [reflexivity | lia |].
  injection He as <-. exact Hformat.
Defined.

Lemma format_uses_six_fields_witness :
  format_policy_response
    (<["title" := VStr "Clean Air Act"]> (<["agency" := VStr "EPA"]> ∅)) =
  format_policy_response (<["title" := VStr "Clean Air Act"]> ∅).
Proof.
  destruct (format_uses_six_fields (<["title" := VStr "Clean Air Act"]> ∅))
    as (Hsame & _); [reflexivity|].
  apply Hsame; [reflexivity|].
  intros key Hkey. rewrite !elem_of_cons, elem_of_nil in Hkey.
  destruct Hkey as [->|[->|[->|[->|[->|[->|[]]]]]]]; reflexivity.
Defined.

Lemma returned_windows_chain_witness :
  exists spans : list (Z * Z),
    [lit "A."; lit "B."; lit "C."] =
      map (fun span => strip (slice (lit "A. B. C.") (fst span) (snd span)))
        spans /\
    (exists b, head spans = Some (0, b)) /\
    (exists a b, last spans = Some (a, b) /\ len (lit "A. B. C.") <= b) /\
    (forall i a b a' b',
       spans !! i = Some (a, b) -> spans !! S i = Some (a', b') ->
       b < len (lit "A. B. C.") /\ a' = b - 1) /\
    (forall i a b, spans !! i = Some (a, b) ->
                   b = window_end (lit "A. B. C.") 5 a).
Proof.
  apply (returned_windows_chain 10 (lit "A. B. C.") 5 1);
    [vm_compute; split; congruence | lia | reflexivity].
Defined.

Lemma marker_free_text_is_tiled_witness :
  exists spans : list (Z * Z),
    chunk_text 11 (lit "abcdefghij") 4 1 =
      Some (map (fun span =>
                   strip (slice (lit "abcdefghij") (fst span) (snd span)))
              spans) /\
    (forall (i : nat) a b,
       spans !! i = Some (a, b) ->
       a = Z.of_nat i * (4 - 1) /\ b = a + 4) /\
    (forall p, 0 <= p < len (lit "abcdefghij") ->
               exists a b, (a, b) ∈ spans /\ a <= p < b).
Proof.
  apply (marker_free_text_is_tiled 11 (lit "abcdefghij") 4 1);
    [reflexivity | lia | reflexivity | simpl; lia].
Defined.

Lemma loop_chunks_are_trimmed_witness :
  Forall trimmed [lit "A."; lit "B."; lit "C."].
Proof.
  apply (loop_chunks_are_trimmed 10 (lit "A. B. C.") 5 1);
    [reflexivity | reflexivity].
Defined.

Lemma chunks_fit_chunk_size_witness :
  Forall (fun chunk => len chunk <= 5) [lit "A."; lit "B."; lit "C."].
Proof.
  apply (chunks_fit_chunk_size 10 (lit "A. B. C.") 5 1);
    [lia | reflexivity].
Defined.

End more_examples.

Section tool_examples.
Import Wrapper Normalizer Formatter Environment.
Import CourtListener Slack Scenarios MoreScenarios.

Lemma attributes_are_present_cells_witness :
  exists (idx : pyval) (row : gmap string pyval),
    (idx, row) ∈ rows (DataFrame_of_records scenario_rows) /\
    "hello" = str (cell row "text") /\
    forall (col value : string),
      <["category" := "Env"]> (∅ : gmap string string) !! col = Some value <->
      col ∈ ["category"] /\
      has_column (DataFrame_of_records scenario_rows) col = true /\
      notna (cell row col) = true /\ value = str (cell row col).
Proof.
  refine (attributes_are_present_cells (DataFrame_of_records scenario_rows)
            "text" "id" ["category"]
            {| Normalizer.id := "p1"; Normalizer.text := "hello";
               Normalizer.attributes := <["category" := "Env"]> ∅ |} _).
  by left.
Defined.

Lemma synthesized_ids_are_distinct_witness :
  NoDup (id <$> records (prepare_policy_records no_id_frame "text" "id" None)).
Proof.
  apply (synthesized_ids_are_distinct no_id_frame "text" "id" None).
  - reflexivity.
  - repeat constructor; by eexists.
  - simpl. apply NoDup_cons. split.
    + intros H. apply list_elem_of_singleton in H. discriminate.
    + apply NoDup_singleton.
Defined.

Lemma mock_case_law_bounded_witness :
  (length (_get_mock_case_law "What about SECTION 230?" 1) <= 1)%nat /\
  _get_mock_case_law "What about SECTION 230?" 1 <> [] /\
  _get_mock_case_law "What about SECTION 230?" 1 =
    first_cases 1 section_230_cases.
Proof.
  destruct (mock_case_law_bounded "What about SECTION 230?" 1)
    as (Hlen & _ & Hne & Hsec); [lia|].
  split; [exact Hlen|]. split; [apply Hne; lia | apply Hsec; reflexivity].
Defined.

Lemma search_case_law_never_retried_witness :
  invocations
    (trace (wrapper (search_case_law request_times_out (Some "token")
                       "Clean Air Act" 5) 3 1 0%nat)) = 1%nat /\
  result (wrapper (search_case_law request_times_out (Some "token")
                     "Clean Air Act" 5) 3 1 0%nat) =
    WValue (_get_mock_case_law "Clean Air Act" 5).
Proof.
  destruct (search_case_law_never_retried request_times_out (Some "token")
              "Clean Air Act" 5 3 1 0%nat)
    as (Hi & _ & _ & _ & Hcaught); [lia|].
  split; [exact Hi|].
  apply (Hcaught (Exn Timeout "read timed out")); reflexivity.
Defined.

Lemma send_notification_unconfigured_witness :
  result (wrapper (send_notification (post_answers 200) (Some "")
                     "Title" "Content" "Source" None) 3 1 0%nat) =
    WValue no_webhook /\
  final (wrapper (send_notification (post_answers 200) (Some "")
                    "Title" "Content" "Source" None) 3 1 0%nat) = 0%nat.
Proof.
  destruct (send_notification_unconfigured (post_answers 200) (Some "")
              "Title" "Content" "Source" None 3 1 0%nat)
    as (Hr & Hf & _); [reflexivity | lia |].
  split; [exact Hr | exact Hf].
Defined.

Lemma send_notification_never_unsent_witness :
  result (wrapper (send_notification (post_answers 404)
                     (Some "https://hooks.example/T") "Title" "Content"
                     "Source" None) 3 1 0%nat) =
    WDict (error_dict "API unavailable"
             "404 Client Error: Not Found for url: https://hooks.example/T") /\
  invocations
    (trace (wrapper (send_notification (post_answers 404)
                       (Some "https://hooks.example/T") "Title" "Content"
                       "Source" None) 3 1 0%nat)) = 1%nat.
Proof.
  destruct (send_notification_never_unsent (post_answers 404)
              (Some "https://hooks.example/T") "Title" "Content" "Source"
              None 3 1 0%nat) as (_ & H).
  destruct (H "https://hooks.example/T"
              {| status_code := 404; reason := "Not Found";
                 response_url := "https://hooks.example/T" |}
              (Exn RequestException
                 "404 Client Error: Not Found for url: https://hooks.example/T"))
    as (Hr & _ & Hi);
    [lia | reflexivity | reflexivity | reflexivity | reflexivity |].
  split; [exact Hr | exact Hi].
Defined.

Lemma send_simple_message_reports_status_witness :
  send_simple_message (post_answers 404) (Some "https://hooks.example/T")
    "hello" 0%nat =
  (Returns (<["status" := VInt 404]> (<["sent" := VBool false]> ∅)), 1%nat).
Proof.
  apply (send_simple_message_reports_status (post_answers 404)
           "https://hooks.example/T" "hello" 0%nat).
  reflexivity.
Defined.

End tool_examples.

(** ** The registry tool *)

Section registry_properties.
Import Wrapper CourtListener FederalRegister.
Context {St : Type} {platform : Platform}.
Variable session_get :
  gmap string json -> St -> outcome (Slack.Response * results_field) * St.

(** X19. When the registry answers the status query with a status that
    passes the check, [check_executive_order_status] reports the status
    "active" exactly when the answer's results are a non-empty array, and
    "not_found" otherwise, and no other status; an active report carries
    the title, the address and the details of the first result, whatever
    results follow it. *)
Theorem executive_order_status_of_first_result (order_number : string)
    (st st' : St) (response : Slack.Response) (results : results_field) :
  session_get (status_params order_number) st
    = (Returns (response, results), st') ->
  Slack.raise_for_status response = None ->
  exists report : gmap string json,
    check_executive_order_status session_get order_number st
      = (Returns report, st') /\
    report !! "executive_order" = Some (JStr order_number) /\
    (report !! "status" = Some (JStr "active") \/
     report !! "status" = Some (JStr "not_found")) /\
    (report !! "status" = Some (JStr "active") <->
     exists result rest, results = Items (result :: rest)) /\
    (forall result rest,
       results = Items (result :: rest) ->
       report !! "title" = Some (dict_get result "title") /\
       report !! "url" = Some (dict_get result "html_url") /\
       report !! "details" = Some (JDict result)).
Proof.
  intros Hget Hstatus. unfold check_executive_order_status.
  rewrite Hget, Hstatus.
  destruct results as [| |[|result rest]].
  1-3: exists (not_found_status order_number); split; [done|];
    split; [done|]; split; [by right|]; split;
    [split; [done | by intros (? & ? & ?)] | done].
  exists (active_status order_number result). split; [done|].
  split; [done|]. split; [by left|]. split; [split; eauto|].
  intros result' rest' [= <- <-]. done.
Qed.

Lemma regulation_of_keys (item : document) :
  dom (regulation_of item) =
    ({["document_number"; "title"; "abstract"; "publication_date"; "type";
       "agencies"; "url"]} : gset string).
Proof.
  unfold regulation_of. rewrite !dom_insert_L, dom_empty_L. set_solver.
Qed.

(** X20. [search_regulations] asks for [min(max_results, 100)] documents
    per page and then keeps every document of the answer, in order, however
    many they are; each entry has the seven keys [document_number],
    [title], [abstract], [publication_date], [type], [agencies] and [url].
    An answer without results gives the empty list, and an answer whose
    results are [null] makes the decorated function return the error
    "Internal error". *)
Theorem search_regulations_keeps_every_result (search_term : string)
    (agency document_type : option string) (max_results : Z) (st st' : St)
    (response : Slack.Response) (results : results_field) :
  session_get (search_params search_term agency document_type max_results) st
    = (Returns (response, results), st') ->
  Slack.raise_for_status response = None ->
  search_params search_term agency document_type max_results !! "per_page"
    = Some (JNum (Z.min max_results 100)) /\
  (results = Absent ->
   search_regulations session_get search_term agency document_type
     max_results st = (Returns [], st')) /\
  (forall items,
     results = Items items ->
     exists entries,
       search_regulations session_get search_term agency document_type
         max_results st = (Returns entries, st') /\
       length entries = length items /\
       (forall (i : nat) item,
          items !! i = Some item -> entries !! i = Some (regulation_of item)) /\
       Forall (fun entry =>
                 dom entry =
                   ({["document_number"; "title"; "abstract";
                      "publication_date"; "type"; "agencies"; "url"]}
                    : gset string)) entries) /\
  (forall max_retries retry_delay,
     results = Null -> 1 <= max_retries ->
     fails_with
       (result (wrapper (search_regulations session_get search_term agency
                           document_type max_results)
                  max_retries retry_delay st))
       "Internal error" "'NoneType' object is not iterable").
Proof.
  intros Hget Hstatus. split; [|split; [|split]].
  - unfold search_params.
    destruct agency as [a|], document_type as [t|]; simpl;
      repeat case_match; by simplify_map_eq.
  - intros ->. unfold search_regulations. by rewrite Hget, Hstatus.
  - intros items ->. exists (regulation_of <$> items).
    split; [unfold search_regulations; by rewrite Hget, Hstatus|].
    split; [by rewrite length_fmap|]. split.
    + intros i item Hi. by rewrite list_lookup_fmap, Hi.
    + apply Forall_fmap, Forall_forall. intros item _.
      apply regulation_of_keys.
  - intros max_retries retry_delay -> Hmr. unfold wrapper.
    destruct (Z.to_nat max_retries) as [|todo] eqn:Htodo; [lia|].
    simpl. unfold search_regulations. rewrite Hget, Hstatus. simpl.
    apply error_dict_fails.
Qed.

End registry_properties.

Section registry_examples.
Import Wrapper CourtListener FederalRegister Scenarios MoreScenarios.

Lemma executive_order_status_of_first_result_witness :
  exists report : gmap string json,
    check_executive_order_status
      (registry_answers (Items [order_document; later_document])) "14067"
      0%nat = (Returns report, 1%nat) /\
    report !! "executive_order" = Some (JStr "14067") /\
    (report !! "status" = Some (JStr "active") \/
     report !! "status" = Some (JStr "not_found")) /\
    (report !! "status" = Some (JStr "active") <->
     exists result rest,
       Items [order_document; later_document] = Items (result :: rest)) /\
    (forall result rest,
       Items [order_document; later_document] = Items (result :: rest) ->
       report !! "title" = Some (dict_get result "title") /\
       report !! "url" = Some (dict_get result "html_url") /\
       report !! "details" = Some (JDict result)).
Proof.
  apply (executive_order_status_of_first_result
           (registry_answers (Items [order_document; later_document]))
           "14067" 0%nat 1%nat
           {| Slack.status_code := 200; Slack.reason := "OK";
              Slack.response_url := "https://www.federalregister.gov/api/v1" |}
           (Items [order_document; later_document])); reflexivity.
Defined.

(** Two documents are kept although one was asked for. *)
Lemma search_regulations_keeps_every_result_witness :
  search_params "digital assets" None None 1 !! "per_page" = Some (JNum 1) /\
  exists entries,
    search_regulations
      (registry_answers (Items [order_document; later_document]))
      "digital assets" None None 1 0%nat = (Returns entries, 1%nat) /\
    length entries = 2%nat /\
    entries !! 0%nat = Some (regulation_of order_document) /\
    entries !! 1%nat = Some (regulation_of later_document).
Proof.
  destruct (search_regulations_keeps_every_result
              (registry_answers (Items [order_document; later_document]))
              "digital assets" None None 1 0%nat 1%nat
              {| Slack.status_code := 200; Slack.reason := "OK";
                 Slack.response_url :=
                   "https://www.federalregister.gov/api/v1" |}
              (Items [order_document; later_document]))
    as (Hpage & _ & Hitems & _); [reflexivity | reflexivity |].
  split; [exact Hpage|].
  destruct (Hitems [order_document; later_document] eq_refl)
    as (entries & Hrun & Hlen & Hlookup & _).
  exists entries. split; [exact Hrun|]. split; [exact Hlen|].
  split; apply Hlookup; reflexivity.
Defined.

End registry_examples.
